(** * Formatting-preserving find-and-replace of the Word document server

    A shallow embedding of [word_document_server/utils/document_utils.py]:
    the text normaliser, the run cloner and splitter, the two run-index
    builders, the match locator and the paragraph rewriter, together with
    the part of python-docx / lxml they are written against (runs as
    [w:r] elements with [w:t], [w:tab] and [w:br] children, element
    identity, sibling insertion and removal). *)

From Stdlib Require Import String Ascii List ZArith NArith Bool Lia DecimalString.
Import ListNotations.
Local Open Scope Z_scope.

Set Implicit Arguments.

(** ** Python strings

    A Python [str] is a sequence of Unicode code points. *)

Module Py.

Definition char := N.
Definition str := list char.

Definition of_string (s : string) : str :=
  map N_of_ascii (list_ascii_of_string s).

Definition len {A} (l : list A) : Z := Z.of_nat (length l).

(** Truthiness of a string or list: [if s:] holds when [s] is not empty. *)
Definition truthy {A} (l : list A) : bool :=
  match l with [] => false | _ => true end.

Fixpoint eqb (s t : str) : bool :=
  match s, t with
  | [], [] => true
  | c :: s', d :: t' => N.eqb c d && eqb s' t'
  | _, _ => false
  end.

(** [s.startswith(p)] *)
Fixpoint startswith (s p : str) : bool :=
  match p, s with
  | [], _ => true
  | d :: p', c :: s' => N.eqb c d && startswith s' p'
  | _ :: _, [] => false
  end.

(** Slice bounds: a negative index counts from the end, and both ends are
    clipped to the string. *)
Definition clip {A} (l : list A) (k : Z) : nat :=
  Z.to_nat (if k <? 0 then Z.max 0 (len l + k) else Z.min k (len l)).

(** [s[:k]] and [s[k:]] *)
Definition slice_to {A} (l : list A) (k : Z) : list A := firstn (clip l k) l.
Definition slice_from {A} (l : list A) (k : Z) : list A := skipn (clip l k) l.

(** [s.find(sub, start)] for [start >= 0]: the lowest index [i >= start]
    with [s[i:i+len(sub)] == sub], or [-1]. The empty [sub] is found at
    every [start <= len(s)]. *)
Fixpoint find_at (sub s : str) (pos : Z) : Z :=
  if startswith s sub then pos
  else match s with
       | [] => -1
       | _ :: s' => find_at sub s' (pos + 1)
       end.

Definition find (s sub : str) (start : Z) : Z :=
  let start := Z.max 0 start in
  if len s <? start then -1
  else find_at sub (skipn (Z.to_nat start) s) start.

(** [sub in s] *)
Definition contains (sub s : str) : bool := negb (find s sub 0 =? -1).

(** [s.replace(old, new)]: every non-overlapping occurrence, scanning from
    the left; with an empty [old], [new] is put before every character and
    at the end. [skip] counts the characters of a match still to drop. *)
Fixpoint replace_from (old new : str) (skip : nat) (s : str) : str :=
  match s with
  | [] => []
  | c :: s' =>
    match skip with
    | S k => replace_from old new k s'
    | O =>
      if startswith s old
      then new ++ replace_from old new (length old - 1) s'
      else c :: replace_from old new 0 s'
    end
  end.

Definition replace (s old new : str) : str :=
  match old with
  | [] => new ++ flat_map (fun c => c :: new) s
  | _ :: _ => replace_from old new 0 s
  end.

(** [range(a, b)] *)
Definition range (a b : Z) : list Z :=
  map (fun i => a + Z.of_nat i) (seq 0 (Z.to_nat (b - a))).

(** [l[i]] with Python's negative indices; [None] stands for IndexError. *)
Definition index {A} (l : list A) (i : Z) : option A :=
  let j := if i <? 0 then i + len l else i in
  if j <? 0 then None else nth_error l (Z.to_nat j).

End Py.

(** [py "abc"] is the Python string literal ['abc']. *)
Definition py (s : string) : Py.str := Py.of_string s.
Arguments py s%_string.

(** ** Text normaliser *)

Definition ZWSP : Py.char := 8203%N.   (* U+200B zero-width space *)
Definition ZWNJ : Py.char := 8204%N.   (* U+200C zero-width non-joiner *)
Definition ZWJ : Py.char := 8205%N.    (* U+200D zero-width joiner *)
Definition SHY : Py.char := 173%N.     (* U+00AD soft hyphen *)
Definition BOM : Py.char := 65279%N.   (* U+FEFF zero-width no-break space *)
Definition NBSP : Py.char := 160%N.    (* U+00A0 no-break space *)
Definition SPACE : Py.char := 32%N.
Definition TAB : Py.char := 9%N.
Definition LF : Py.char := 10%N.
Definition CR : Py.char := 13%N.

Definition normalize_text_for_search (text : Py.str) : Py.str :=
  if negb (Py.truthy text) then text
  else
    let text := Py.replace text [ZWSP] [] in
    let text := Py.replace text [ZWNJ] [] in
    let text := Py.replace text [ZWJ] [] in
    let text := Py.replace text [SHY] [] in
    let text := Py.replace text [BOM] [] in
    let text := Py.replace text [NBSP] [SPACE] in
    text.

(** ** The run element, as python-docx reads and writes it

    A [w:r] element holds optional run properties ([w:rPr], the style
    attributes, never interpreted here) and content children. *)

Record RunProps := mk_rPr {
  bold : bool;
  italic : bool;
  font_size : option N
}.

Inductive rchild :=
| w_t (text : Py.str)        (* text *)
| w_tab                      (* tab *)
| w_br                       (* text-wrapping line break *)
| w_other (tag : string).    (* drawing, field character, ...: no text *)

Record CT_R := mk_r {
  rPr : option RunProps;
  content : list rchild
}.

(** [Run.text] getter: the text of the content children in order. *)
Definition rchild_str (c : rchild) : Py.str :=
  match c with
  | w_t text => text
  | w_tab => [TAB]
  | w_br => [LF]
  | w_other _ => []
  end.

Definition CT_R_text (r : CT_R) : Py.str := flat_map rchild_str (content r).

(** [Run.text] setter: [clear_content] keeps only [w:rPr]; the appender
    turns a tab into [w:tab], a line feed or carriage return into [w:br]
    and flushes the characters in between into [w:t] elements. *)
Definition flush (bfr : Py.str) : list rchild :=
  if Py.truthy bfr then [w_t bfr] else [].

Fixpoint append_to_run_from_text (bfr : Py.str) (text : Py.str) : list rchild :=
  match text with
  | [] => flush bfr
  | c :: text' =>
    if N.eqb c TAB then flush bfr ++ w_tab :: append_to_run_from_text [] text'
    else if N.eqb c CR || N.eqb c LF
         then flush bfr ++ w_br :: append_to_run_from_text [] text'
         else append_to_run_from_text (bfr ++ [c]) text'
  end.

Definition CT_R_set_text (r : CT_R) (text : Py.str) : CT_R :=
  mk_r (rPr r) (append_to_run_from_text [] text).

(** The two loops of [clone_run_with_text] over [iter(qn('w:t'))]: the
    first [w:t] receives [text], every later one the empty string; the
    other children of the copy stay as they are. *)
Fixpoint set_t_texts (text : Py.str) (first_seen : bool) (cs : list rchild)
  : list rchild :=
  match cs with
  | [] => []
  | w_t old :: cs' =>
    w_t (if first_seen then [] else text) :: set_t_texts text true cs'
  | c :: cs' => c :: set_t_texts text first_seen cs'
  end.

Definition with_text (r : CT_R) (text : Py.str) : CT_R :=
  mk_r (rPr r) (set_t_texts text false (content r)).

(** lxml takes as the text of an element only what XML can hold: a tab,
    a line feed, a carriage return, or a character from U+0020 on that
    is neither a surrogate nor U+FFFE nor U+FFFF. Given a text with any
    other character, a NUL or a form feed for one, the assignment raises
    [ValueError] and the element keeps the text it had. Every text read
    from a document is such a text. The two setters above, and
    [Run_set_text] and [clone_run_with_text] below, are those of the
    texts that XML can hold. *)
Definition xml_char (c : Py.char) : bool :=
  ((N.eqb c TAB || N.eqb c LF || N.eqb c CR || (32 <=? c)%N)
   && negb ((55296 <=? c)%N && (c <=? 57343)%N)
   && negb (N.eqb c 65534)
   && negb (N.eqb c 65535))%bool.

Definition xml_compatible (text : Py.str) : bool := forallb xml_char text.

(** ** The paragraph element

    Elements are objects: a run is known by its reference, which stays
    valid after the run has been removed from the tree. A paragraph owns
    its run objects ([elems], indexed by reference) and the tree of its
    children, where a run sits either directly under the paragraph or
    inside wrappers. *)

Definition ref := nat.

Inductive wrapper := w_hyperlink | w_sdt | w_ins | w_smartTag.

#[warnings="-register-all"]
Inductive elem :=
| E_r (r : ref)
| E_box (tag : wrapper) (kids : list elem).

Record CT_P := mk_p {
  style : option Py.str;     (* para.style.name; None when para.style is falsy *)
  kids : list elem;
  elems : list CT_R
}.

(** [paragraph.runs]: the [w:r] elements that are direct children. *)
Definition r_lst (ks : list elem) : list ref :=
  flat_map (fun k => match k with E_r r => [r] | E_box _ _ => [] end) ks.

(** [find_all_runs] of [build_xml_run_map]: every [w:r] below an element,
    in document order. *)
Fixpoint find_all_runs (element : elem) : list ref :=
  match element with
  | E_r r => [r]
  | E_box _ ks => flat_map find_all_runs ks
  end.

(** Replace the element [E_r r] by the siblings [repl] in the sibling list
    that holds it; [None] when [r] is not in the tree. *)
Fixpoint splice (r : ref) (repl : list elem) (e : elem) : option elem :=
  match e with
  | E_r _ => None
  | E_box t ks =>
    option_map (E_box t)
      ((fix go (l : list elem) : option (list elem) :=
          match l with
          | [] => None
          | k :: l' =>
            match k with
            | E_r r' =>
              if Nat.eqb r' r then Some (repl ++ l')
              else option_map (cons k) (go l')
            | E_box _ _ =>
              match splice r repl k with
              | Some k' => Some (k' :: l')
              | None => option_map (cons k) (go l')
              end
            end
          end) ks)
  end.

Definition splice_kids (r : ref) (repl : list elem) (ks : list elem)
  : option (list elem) :=
  match splice r repl (E_box w_sdt ks) with
  | Some (E_box _ ks') => Some ks'
  | _ => None
  end.

(** [list.__setitem__] on an index known to be in range. *)
Fixpoint update {A} (l : list A) (i : nat) (x : A) : list A :=
  match l, i with
  | [], _ => []
  | _ :: l', O => x :: l'
  | y :: l', S j => y :: update l' j x
  end.

(** ** State and exceptions *)

Inductive exn :=
| IndexError        (* list index out of range *)
| AttributeError    (* attribute access on None *)
| InvalidRef.       (* a reference to no object: cannot arise in Python *)

Inductive result (A : Type) :=
| Ok (a : A)
| Raise (e : exn).
Arguments Ok {A} a.
Arguments Raise {A} e.

(** A computation on a state [S]: the state after it and either a value
    or the exception raised. Mutations made before a raise stay. *)
Definition SE (S A : Type) : Type := S -> S * result A.

Definition ret {S A} (a : A) : SE S A := fun s => (s, Ok a).

Definition raise {S A} (e : exn) : SE S A := fun s => (s, Raise e).

Definition bind {S A B} (m : SE S A) (k : A -> SE S B) : SE S B :=
  fun s =>
    match m s with
    | (s', Ok a) => k a s'
    | (s', Raise e) => (s', Raise e)
    end.

Definition gets {S A} (f : S -> A) : SE S A := fun s => (s, Ok (f s)).

Definition modify {S} (f : S -> S) : SE S unit := fun s => (f s, Ok tt).

Definition of_option {S A} (e : exn) (o : option A) : SE S A :=
  match o with Some a => ret a | None => raise e end.

Declare Scope se_scope.
Delimit Scope se_scope with se.
Notation "x <- m ;; k" := (bind m (fun x => k))
  (at level 61, m at next level, right associativity) : se_scope.
Notation "' pat <- m ;; k" := (bind m (fun x => match x with pat => k end))
  (at level 61, pat pattern, m at next level, right associativity) : se_scope.
Notation "m ;; k" := (bind m (fun _ => k))
  (at level 61, right associativity) : se_scope.
Local Open Scope se_scope.

(** [for x in l: body(x)] *)
Fixpoint for_each {S A} (l : list A) (body : A -> SE S unit) : SE S unit :=
  match l with
  | [] => ret tt
  | x :: l' => body x ;; for_each l' body
  end.

(** The state outside the document: the [count] variable of the replace
    call and what has been printed. *)
Record globals := mk_glob {
  count : Z;
  stdout : list Py.str
}.

(** State of the code working on one paragraph. *)
Definition PM (A : Type) : Type := SE (CT_P * globals) A.

(** State of the code working on a document: its paragraph objects. *)
Definition world : Type := list CT_P * globals.

(** Run a paragraph computation on paragraph object [p] of the document. *)
Definition at_para {A} (p : nat) (m : PM A) : SE world A :=
  fun w =>
    match nth_error (fst w) p with
    | None => (w, Raise InvalidRef)
    | Some para =>
      match m (para, snd w) with
      | ((para', g'), r) => ((update (fst w) p para', g'), r)
      end
    end.

(** ** What the code asks of a paragraph and of a run *)

Definition get_para : PM CT_P := gets fst.

Definition set_para (f : CT_P -> CT_P) : PM unit :=
  modify (fun s => (f (fst s), snd s)).

(** [para.runs] *)
Definition runs : PM (list ref) := gets (fun s => r_lst (kids (fst s))).

Definition get_elem (r : ref) : PM CT_R :=
  p <- get_para ;; of_option InvalidRef (nth_error (elems p) r).

Definition set_elem (r : ref) (e : CT_R) : PM unit :=
  set_para (fun p => mk_p (style p) (kids p) (update (elems p) r e)).

(** A new element object, not yet in any tree. *)
Definition new_elem (e : CT_R) : PM ref :=
  p <- get_para ;;
  set_para (fun p => mk_p (style p) (kids p) (elems p ++ [e])) ;;
  ret (List.length (elems p)).

(** [run.text] *)
Definition Run_text (run : ref) : PM Py.str :=
  e <- get_elem run ;; ret (CT_R_text e).

(** [run.text = text], for a text that XML can hold; with any other
    text lxml raises [ValueError], once [clear_content] has emptied the
    run. *)
Definition Run_set_text (run : ref) (text : Py.str) : PM unit :=
  e <- get_elem run ;; set_elem run (CT_R_set_text e text).

(** lxml [target.addnext(new)] and [target.addprevious(new)]: [new]
    becomes a sibling of [target]. When [target] has been removed from
    the tree the two are linked outside of it and the tree is as before. *)
Definition set_kids (ks : list elem) : PM unit :=
  set_para (fun p => mk_p (style p) ks (elems p)).

Definition addnext (target new : ref) : PM unit :=
  p <- get_para ;;
  match splice_kids target [E_r target; E_r new] (kids p) with
  | Some ks => set_kids ks
  | None => ret tt
  end.

Definition addprevious (target new : ref) : PM unit :=
  p <- get_para ;;
  match splice_kids target [E_r new; E_r target] (kids p) with
  | Some ks => set_kids ks
  | None => ret tt
  end.

(** [r.getparent().remove(r)]: [getparent()] is [None] for an element
    that is in no tree. *)
Definition getparent_remove (r : ref) : PM unit :=
  p <- get_para ;;
  match splice_kids r [] (kids p) with
  | Some ks => set_kids ks
  | None => raise AttributeError
  end.

(** [count += 1] *)
Definition incr_count : PM unit :=
  modify (fun s => (fst s, mk_glob (count (snd s) + 1) (stdout (snd s)))).

(** [print(line)] *)
Definition print {S} (line : Py.str) : SE (S * globals) unit :=
  modify (fun s => (fst s, mk_glob (count (snd s)) (stdout (snd s) ++ [line]))).

(** [str(n)] for an integer. *)
Definition str_of_int (n : Z) : Py.str :=
  Py.of_string (DecimalString.NilZero.string_of_int (Z.to_int n)).

(** ** Run cloner and run splitter *)

(** The deep copy of the source run with [text] in its first [w:t], for
    a text that XML can hold; with any other text the assignment to the
    first [w:t] of the copy raises [ValueError]. *)
Definition clone_run_with_text (source_run : ref) (text : Py.str) : PM ref :=
  e <- get_elem source_run ;;
  new_elem (with_text e text).

Definition split_run_at (run : ref) (split_index : Z) : PM (Py.str * Py.str) :=
  original_text <- Run_text run ;;
  if split_index <=? 0 then ret ([], original_text)
  else if split_index >=? Py.len original_text then ret (original_text, [])
  else
    let left_text := Py.slice_to original_text split_index in
    let right_text := Py.slice_from original_text split_index in
    Run_set_text run left_text ;;
    right_run_element <- clone_run_with_text run right_text ;;
    addnext run right_run_element ;;
    ret (left_text, right_text).

(** ** Run index builders *)

Definition span (A : Type) : Type := Z * Z * A.

(** The loop over [enumerate(para.runs)] in [process_paragraph]. *)
Fixpoint build_run_map (rs : list ref) (run_idx : Z) (full_text : Py.str)
    (run_map : list (span Z)) : PM (Py.str * list (span Z)) :=
  match rs with
  | [] => ret (full_text, run_map)
  | run :: rs' =>
    let start_pos := Py.len full_text in
    text <- Run_text run ;;
    let normalized_run_text := normalize_text_for_search text in
    let full_text := full_text ++ normalized_run_text in
    let end_pos := Py.len full_text in
    let run_map :=
      if end_pos >? start_pos
      then run_map ++ [(start_pos, end_pos, run_idx)]
      else run_map in
    build_run_map rs' (run_idx + 1) full_text run_map
  end.

(** Text of a run as [build_xml_run_map] takes it: the non-empty [w:t]
    texts, then one space for every [w:tab]. *)
Definition xml_run_text (e : CT_R) : Py.str :=
  flat_map (fun c => match c with w_t text => text | _ => [] end) (content e)
  ++ repeat SPACE
       (List.length (filter (fun c => match c with w_tab => true | _ => false end)
                            (content e))).

Fixpoint xml_run_map_loop (run_elements : list ref) (full_text : Py.str)
    (xml_run_map : list (span ref)) : PM (Py.str * list (span ref)) :=
  match run_elements with
  | [] => ret (full_text, xml_run_map)
  | run_element :: rest =>
    let start_pos := Py.len full_text in
    e <- get_elem run_element ;;
    let run_text := xml_run_text e in
    if Py.truthy run_text then
      let normalized_text := normalize_text_for_search run_text in
      let full_text := full_text ++ normalized_text in
      let end_pos := Py.len full_text in
      xml_run_map_loop rest full_text
        (xml_run_map ++ [(start_pos, end_pos, run_element)])
    else xml_run_map_loop rest full_text xml_run_map
  end.

Definition build_xml_run_map : PM (Py.str * list (span ref)) :=
  p <- get_para ;;
  xml_run_map_loop (flat_map find_all_runs (kids p)) [] [].

(** ** Match locator

    The [while True] loop around [full_text.find]: every pass either
    leaves the loop or moves [start_search] one past the match found, so
    [len(full_text) + 2] passes are enough ([find_matches_total]). *)
Fixpoint find_matches (fuel : nat) (full_text old_text_norm : Py.str)
    (start_search : Z) (matches : list (Z * Z)) : option (list (Z * Z)) :=
  match fuel with
  | O => None
  | S fuel' =>
    let match_pos := Py.find full_text old_text_norm start_search in
    if match_pos =? -1 then Some matches
    else find_matches fuel' full_text old_text_norm (match_pos + 1)
           (matches ++ [(match_pos, match_pos + Py.len old_text_norm)])
  end.

Definition locate (full_text old_text_norm : Py.str) : option (list (Z * Z)) :=
  find_matches (List.length full_text + 2) full_text old_text_norm 0 [].

Definition all_matches (full_text old_text_norm : Py.str) : list (Z * Z) :=
  match locate full_text old_text_norm with
  | Some matches => matches
  | None => []
  end.

(** The runs overlapping a match, each with its overlap in its own
    coordinates: [(run, overlap_start, overlap_end, start_pos)]. *)
Definition affected {A} (run_map : list (span A)) (match_start match_end : Z)
  : list (A * Z * Z * Z) :=
  flat_map
    (fun '(start_pos, end_pos, run) =>
       if (start_pos <? match_end) && (end_pos >? match_start)
       then [(run,
              Z.max 0 (match_start - start_pos),
              Z.min (end_pos - start_pos) (match_end - start_pos),
              start_pos)]
       else [])
    run_map.

(** [[f(x) for x in l]] for an [f] with effects. *)
Fixpoint map_m {S A B} (f : A -> SE S B) (l : list A) : SE S (list B) :=
  match l with
  | [] => ret []
  | x :: l' => y <- f x ;; ys <- map_m f l' ;; ret (y :: ys)
  end.

Definition when {S} (b : bool) (m : SE S unit) : SE S unit :=
  if b then m else ret tt.

(** [para.style and para.style.name.startswith("TOC")] *)
Definition is_toc (p : CT_P) : bool :=
  match style p with
  | Some name => Py.startswith name (py "TOC")
  | None => false
  end.

(** ** Paragraph rewriter *)

Section Replace.

(** [os.getenv('MCP_WORD_DEBUG_FIND_REPLACE', '0') == '1'] *)
Variable DEBUG_FIND_REPLACE : bool.

Definition _dbg {S} (msg : Py.str) : SE (S * globals) unit :=
  if DEBUG_FIND_REPLACE then print (py "[find_replace] " ++ msg) else ret tt.

Variable new_text : Py.str.

(** *** Standard path: the runs of [para.runs] *)

(** The loop over [enumerate(runs_to_replace)] that shares the replacement
    text out; [n] is [len(runs_to_replace)] and [i] the loop index. *)
Fixpoint replacement_loop (n i : Z) (runs_to_replace : list ref)
    (remaining_text : Py.str) (replacement_runs : list ref)
  : PM (Py.str * list ref) :=
  match runs_to_replace with
  | [] => ret (remaining_text, replacement_runs)
  | original_run :: rest =>
    if negb (Py.truthy remaining_text)
    then ret (remaining_text, replacement_runs)          (* break *)
    else
      '(segment_text, remaining_text) <-
        (if i =? n - 1 then ret (remaining_text, [])
         else
           text <- Run_text original_run ;;
           let original_segment_len := Py.len text in
           let chars_to_take :=
             if original_segment_len >? 0
             then Z.min original_segment_len (Py.len remaining_text)
             else if Py.truthy remaining_text then 1 else 0 in
           ret (Py.slice_to remaining_text chars_to_take,
                Py.slice_from remaining_text chars_to_take)) ;;
      replacement_runs <-
        (if Py.truthy segment_text
         then cloned_run_element <- clone_run_with_text original_run segment_text ;;
              ret (replacement_runs ++ [cloned_run_element])
         else ret replacement_runs) ;;
      replacement_loop n (i + 1) rest remaining_text replacement_runs
  end.

(** The body of the loop over [reversed(matches)]. After the first split
    the source also re-reads [first_run] and shifts the indices stored in
    [affected_runs]; neither is read again, so only [first_run_idx] and
    [last_run_idx] are carried on. The trailing [while remaining_text and
    runs_to_replace] loop empties [remaining_text] in its body: it runs
    at most once. *)
Definition process_match_standard (run_map : list (span Z)) (m : Z * Z)
  : PM unit :=
  let '(match_start, match_end) := m in
  let affected_runs := affected run_map match_start match_end in
  match affected_runs with
  | [] => ret tt                                          (* continue *)
  | (first_run_idx, first_overlap_start, _, _) :: _ =>
    let '(last_run_idx, _, last_overlap_end, _) :=
      last affected_runs (0, 0, 0, 0) in
    rs <- runs ;;
    first_run <- of_option IndexError (Py.index rs first_run_idx) ;;
    '(first_run_idx, last_run_idx) <-
      (if first_overlap_start >? 0
       then split_run_at first_run first_overlap_start ;;
            ret (first_run_idx + 1, last_run_idx + 1)
       else ret (first_run_idx, last_run_idx)) ;;
    rs <- runs ;;
    last_run <-
      of_option IndexError
        (if last_run_idx <? Py.len rs then Py.index rs last_run_idx
         else Py.index rs (-1)) ;;
    last_run_text <- Run_text last_run ;;
    when (last_overlap_end <? Py.len last_run_text)
         (split_run_at last_run last_overlap_end ;; ret tt) ;;
    rs <- runs ;;
    runs_to_replace <-
      map_m (fun run_idx => of_option IndexError (Py.index rs run_idx))
            (Py.range first_run_idx (Z.min (last_run_idx + 1) (Py.len rs))) ;;
    if negb (Py.truthy runs_to_replace) then ret tt       (* continue *)
    else
      '(remaining_text, replacement_runs) <-
        replacement_loop (Py.len runs_to_replace) 0 runs_to_replace new_text [] ;;
      replacement_runs <-
        (if Py.truthy remaining_text && Py.truthy runs_to_replace
         then last_original <- of_option IndexError (Py.index runs_to_replace (-1)) ;;
              cloned_run_element <- clone_run_with_text last_original remaining_text ;;
              ret (replacement_runs ++ [cloned_run_element])
         else ret replacement_runs) ;;
      when (Py.truthy replacement_runs && Py.truthy runs_to_replace)
           (insert_point <- of_option IndexError (Py.index runs_to_replace 0) ;;
            for_each replacement_runs (fun replacement_run =>
              addprevious insert_point replacement_run) ;;
            for_each runs_to_replace getparent_remove) ;;
      incr_count ;;
      _dbg (py "Standard path: one replacement applied")
  end.

Definition process_paragraph_standard (full_text : Py.str)
    (run_map : list (span Z)) (old_text_norm : Py.str) : PM unit :=
  if negb (Py.truthy full_text) || negb (Py.contains old_text_norm full_text)
  then ret tt
  else
    let matches := all_matches full_text old_text_norm in
    _dbg (py "Standard path: " ++ str_of_int (Py.len matches)
            ++ py " match(es) in paragraph") ;;
    for_each (rev matches) (process_match_standard run_map).

(** *** XML path: the runs found by tree traversal *)

Definition xml_affected : Type := ref * Z * Z * Z.

Fixpoint xml_replacement_loop (n i : Z) (affected_xml_runs : list xml_affected)
    (remaining_text : Py.str) (replacement_runs : list ref)
  : PM (Py.str * list ref) :=
  match affected_xml_runs with
  | [] => ret (remaining_text, replacement_runs)
  | (run_element, overlap_start, overlap_end, run_start_pos) :: rest =>
    if negb (Py.truthy remaining_text)
    then ret (remaining_text, replacement_runs)          (* break *)
    else
      let '(segment_text, remaining_text) :=
        if i =? n - 1 then (remaining_text, [])
        else
          let original_segment_len := overlap_end - overlap_start in
          let chars_to_take :=
            if original_segment_len >? 0
            then Z.min original_segment_len (Py.len remaining_text)
            else if Py.truthy remaining_text then 1 else 0 in
          (Py.slice_to remaining_text chars_to_take,
           Py.slice_from remaining_text chars_to_take) in
      replacement_runs <-
        (if Py.truthy segment_text
         then cloned_run_element <- clone_run_with_text run_element segment_text ;;
              ret (replacement_runs ++ [cloned_run_element])
         else ret replacement_runs) ;;
      xml_replacement_loop n (i + 1) rest remaining_text replacement_runs
  end.

(** The body of the loop over [reversed(matches)]; the deep copy and the
    two loops over the copy's [w:t] elements that the source writes out
    here are those of [clone_run_with_text]. *)
Definition process_match_xml (xml_run_map : list (span ref)) (m : Z * Z)
  : PM unit :=
  let '(match_start, match_end) := m in
  let affected_xml_runs := affected xml_run_map match_start match_end in
  if negb (Py.truthy affected_xml_runs) then ret tt       (* continue *)
  else
    '(remaining_text, replacement_runs) <-
      xml_replacement_loop (Py.len affected_xml_runs) 0 affected_xml_runs
        new_text [] ;;
    replacement_runs <-
      (if Py.truthy remaining_text && Py.truthy affected_xml_runs
       then last <- of_option IndexError (Py.index affected_xml_runs (-1)) ;;
            let '(last_run_element, _, _, _) := last in
            cloned_run_element <- clone_run_with_text last_run_element remaining_text ;;
            ret (replacement_runs ++ [cloned_run_element])
       else ret replacement_runs) ;;
    when (Py.truthy replacement_runs && Py.truthy affected_xml_runs)
         (first <- of_option IndexError (Py.index affected_xml_runs 0) ;;
          let '(insert_point, _, _, _) := first in
          for_each replacement_runs (fun replacement_run =>
            addprevious insert_point replacement_run) ;;
          for_each affected_xml_runs (fun '(run_element, _, _, _) =>
            getparent_remove run_element)) ;;
    incr_count ;;
    _dbg (py "XML path: one replacement applied").

Definition process_paragraph_xml (xml_full_text : Py.str)
    (xml_run_map : list (span ref)) (old_text_norm : Py.str) : PM unit :=
  if negb (Py.truthy xml_full_text)
     || negb (Py.contains old_text_norm xml_full_text)
  then ret tt
  else
    let matches := all_matches xml_full_text old_text_norm in
    _dbg (py "XML path: " ++ str_of_int (Py.len matches)
            ++ py " match(es) in paragraph") ;;
    for_each (rev matches) (process_match_xml xml_run_map).

(** *** One paragraph *)

Variable old_text : Py.str.

Definition process_paragraph : PM unit :=
  para <- get_para ;;
  if is_toc para then ret tt
  else
    rs <- runs ;;
    '(full_text, run_map) <- build_run_map rs 0 [] [] ;;
    let normalized_old_text := normalize_text_for_search old_text in
    if Py.contains normalized_old_text full_text then
      _dbg (py "Standard path: match found in paragraph.runs") ;;
      process_paragraph_standard full_text run_map normalized_old_text
    else
      _dbg (py "Standard path: no match or no direct runs; trying XML fallback") ;;
      '(xml_full_text, xml_run_map) <- build_xml_run_map ;;
      if Py.contains normalized_old_text xml_full_text then
        _dbg (py "XML fallback: match found in nested runs") ;;
        process_paragraph_xml xml_full_text xml_run_map normalized_old_text
      else
        _dbg (py "XML fallback: no match in this paragraph").

End Replace.

(** ** The document and the two replace operations *)

(** A document as the code walks it: references to paragraph objects.
    [row.cells] lists a merged cell once per grid column, so a paragraph
    may be listed more than once. *)
Definition Cell := list nat.
Definition Row := list Cell.
Definition Table := list Row.

Record Document := mk_doc {
  paragraphs : list nat;
  tables : list Table
}.

(** [os.getenv(name, default)] for a variable that is unset ([None]) or
    holds a value. *)
Definition getenv (value : option Py.str) (default : Py.str) : Py.str :=
  match value with
  | Some v => v
  | None => default
  end.

Definition set_count (n : Z) : SE world unit :=
  modify (fun w => (fst w, mk_glob n (stdout (snd w)))).

Definition get_count : SE world Z := gets (fun w => count (snd w)).

Definition find_and_replace_text_preserve_formatting
    (MCP_WORD_DEBUG_FIND_REPLACE : option Py.str)
    (doc : Document) (old_text new_text : Py.str) : SE world Z :=
  set_count 0 ;;
  let DEBUG_FIND_REPLACE :=
    Py.eqb (getenv MCP_WORD_DEBUG_FIND_REPLACE (py "0")) (py "1") in
  let process_paragraph (para : nat) :=
    at_para para (process_paragraph DEBUG_FIND_REPLACE new_text old_text) in
  for_each (paragraphs doc) process_paragraph ;;
  for_each (tables doc) (fun table =>
    for_each table (fun row =>
      for_each row (fun cell =>
        for_each cell process_paragraph))) ;;
  n <- get_count ;;
  _dbg DEBUG_FIND_REPLACE (py "Total replacements: " ++ str_of_int n) ;;
  ret n.

(** [find_and_replace_text], the plain replace operation.
    [para.text] is the text of the direct runs and of the runs directly
    inside hyperlinks, in document order. *)
Definition Paragraph_text : PM Py.str :=
  p <- get_para ;;
  texts <- map_m (fun k =>
             match k with
             | E_r r => Run_text r
             | E_box w_hyperlink ks =>
               ts <- map_m Run_text (r_lst ks) ;; ret (concat ts)
             | E_box _ _ => ret []
             end) (kids p) ;;
  ret (concat texts).

Definition replace_in_paragraph (old_text new_text : Py.str) : PM unit :=
  para <- get_para ;;
  if is_toc para then ret tt                               (* continue *)
  else
    text <- Paragraph_text ;;
    when (Py.contains old_text text)
      (rs <- runs ;;
       for_each rs (fun run =>
         text <- Run_text run ;;
         when (Py.contains old_text text)
           (Run_set_text run (Py.replace text old_text new_text) ;;
            incr_count))).

Definition find_and_replace_text (doc : Document) (old_text new_text : Py.str)
  : SE world Z :=
  set_count 0 ;;
  for_each (paragraphs doc) (fun para =>
    at_para para (replace_in_paragraph old_text new_text)) ;;
  for_each (tables doc) (fun table =>
    for_each table (fun row =>
      for_each row (fun cell =>
        for_each cell (fun para =>
          at_para para (replace_in_paragraph old_text new_text))))) ;;
  get_count.

(** ** Writing documents down and reading them back

    A paragraph as a value: its items carry their runs. [load] makes the
    objects, numbering the runs in document order; [view] reads the tree
    of a paragraph object back. *)

#[warnings="-register-all"]
Inductive item :=
| Run (r : CT_R)
| Box (tag : wrapper) (items : list item).

Fixpoint load_item (it : item) (es : list CT_R) : elem * list CT_R :=
  match it with
  | Run r => (E_r (List.length es), es ++ [r])
  | Box t its =>
    let '(ks, es') :=
      (fix go (l : list item) (es : list CT_R) : list elem * list CT_R :=
         match l with
         | [] => ([], es)
         | i :: l' =>
           let '(k, es1) := load_item i es in
           let '(ks, es2) := go l' es1 in
           (k :: ks, es2)
         end) its es in
    (E_box t ks, es')
  end.

Definition load (style : option Py.str) (items : list item) : CT_P :=
  match load_item (Box w_sdt items) [] with
  | (E_box _ ks, es) => mk_p style ks es
  | (E_r _, es) => mk_p style [] es
  end.

Fixpoint view_elem (es : list CT_R) (e : elem) : list item :=
  match e with
  | E_r r => match nth_error es r with Some c => [Run c] | None => [] end
  | E_box t ks => [Box t (flat_map (view_elem es) ks)]
  end.

Definition view (p : CT_P) : list item := flat_map (view_elem (elems p)) (kids p).

(** The run python-docx makes for [add_run(text)] with properties [props]. *)
Definition text_run (props : option RunProps) (text : Py.str) : CT_R :=
  CT_R_set_text (mk_r props []) text.

(** The texts of the direct runs of a paragraph, and the text of the
    paragraph as a reader sees it. *)
Definition run_texts (p : CT_P) : list Py.str :=
  flat_map (fun r => match nth_error (elems p) r with
                     | Some c => [CT_R_text c]
                     | None => []
                     end) (r_lst (kids p)).

Definition initial : globals := mk_glob 0 [].

Definition plain (s : string) : item := Run (text_run None (py s)).
Arguments plain s%_string.



(** A document of the paragraphs [ps], all in the body, through
    [find_and_replace_text_preserve_formatting] with the debug variable
    unset. *)
Definition body_of (ps : list CT_P) : Document :=
  mk_doc (seq 0 (List.length ps)) [].

(** The paragraphs of a document in the order in which the replace
    operations visit them: the body, then table by table, row by row and
    cell by cell. *)
Definition walk (doc : Document) : list nat :=
  paragraphs doc
  ++ flat_map (fun table : Table =>
       flat_map (fun row : Row =>
         flat_map (fun cell : Cell => cell) row) table) (tables doc).

Definition replace_all (old_text new_text : Py.str) (ps : list CT_P)
  : world * result Z :=
  find_and_replace_text_preserve_formatting None (body_of ps)
    old_text new_text (ps, initial).

(** ** The body of a document and the block under a header

    [delete_block_under_header] works on the children of the document
    body: paragraphs, which [doc.paragraphs] lists, and tables. It reads
    the paragraph objects and removes paragraphs from the body. *)

Inductive block :=
| B_p (para : nat)
| B_tbl (table : Table).

(** [doc.paragraphs] *)
Definition body_paragraphs (body : list block) : list nat :=
  flat_map (fun b => match b with B_p para => [para] | B_tbl _ => [] end) body.

Definition body_tables (body : list block) : list Table :=
  flat_map (fun b => match b with B_p _ => [] | B_tbl t => [t] end) body.

(** [p.getparent().remove(p)] for a paragraph element of the body. *)
Fixpoint remove_paragraph (para : nat) (body : list block)
  : option (list block) :=
  match body with
  | [] => None
  | B_p q :: rest =>
    if Nat.eqb q para then Some rest
    else option_map (cons (B_p q)) (remove_paragraph para rest)
  | b :: rest => option_map (cons b) (remove_paragraph para rest)
  end.

Section Blocks.

(** [str.lower] and [str.strip], whose Unicode tables are not spelled
    out here: the results hold whatever they are. *)
Variables lower strip : Py.str -> Py.str.

(** The paragraph objects, which this code only reads. *)
Variable ps : list CT_P.

Definition para_obj (para : nat) : SE (list block) CT_P :=
  of_option InvalidRef (nth_error ps para).

(** [para.text] *)
Definition text_of (para : nat) : SE (list block) Py.str :=
  p <- para_obj para ;;
  match snd (Paragraph_text (p, initial)) with
  | Ok text => ret text
  | Raise e => raise e
  end.

(** [para.style and para.style.name.lower().startswith(('heading',
    'título', 'toc'))] *)
Definition ends_block (p : CT_P) : bool :=
  match style p with
  | Some name =>
    Py.startswith (lower name) (py "heading")
    || Py.startswith (lower name) (py "t" ++ [237%N] ++ py "tulo")
    || Py.startswith (lower name) (py "toc")
  | None => false
  end.

(** The loop that looks for the header; [target] is
    [header_text.strip().lower()]. *)
Fixpoint find_header (target : Py.str) (i : Z) (paras : list nat)
  : SE (list block) (option (nat * Z)) :=
  match paras with
  | [] => ret None
  | para :: rest =>
    text <- text_of para ;;
    if Py.eqb (lower (strip text)) target then ret (Some (para, i))
    else find_header target (i + 1) rest
  end.

(** The loop over [range(header_idx + 1, len(doc.paragraphs))] that looks
    for the next heading or table-of-contents paragraph. *)
Fixpoint find_end (indices : list Z) : SE (list block) (option Z) :=
  match indices with
  | [] => ret None
  | i :: rest =>
    paras <- gets body_paragraphs ;;
    para <- of_option IndexError (Py.index paras i) ;;
    p <- para_obj para ;;
    if ends_block p then ret (Some i) else find_end rest
  end.

(** The loop over [range(header_idx + 1, end_idx)] that removes
    paragraphs: each pass that finds [i < len(doc.paragraphs)] removes
    the paragraph right after the header. *)
Fixpoint remove_loop (header_idx : Z) (indices : list Z) (removed_count : Z)
  : SE (list block) Z :=
  match indices with
  | [] => ret removed_count
  | i :: rest =>
    paras <- gets body_paragraphs ;;
    if i <? Py.len paras then
      para <- of_option IndexError (Py.index paras (header_idx + 1)) ;;
      body <- gets (fun body => body) ;;
      match remove_paragraph para body with
      | Some body' => modify (fun _ => body')
      | None => raise AttributeError
      end ;;
      remove_loop header_idx rest (removed_count + 1)
    else remove_loop header_idx rest removed_count
  end.

Definition delete_block_under_header (header_text : Py.str)
  : SE (list block) (option nat * Z) :=
  paras <- gets body_paragraphs ;;
  found <- find_header (lower (strip header_text)) 0 paras ;;
  match found with
  | None => ret (None, 0)
  | Some (header_para, header_idx) =>
    paras <- gets body_paragraphs ;;
    next <- find_end (Py.range (header_idx + 1) (Py.len paras)) ;;
    paras <- gets body_paragraphs ;;
    let end_idx := match next with Some i => i | None => Py.len paras end in
    removed_count <- remove_loop header_idx (Py.range (header_idx + 1) end_idx) 0 ;;
    ret (Some header_para, removed_count)
  end.

(** A paragraph whose text is, or is not, the header looked for. *)
Definition header_is (target : Py.str) (para : nat) : Prop :=
  exists p text,
    nth_error ps para = Some p
    /\ snd (Paragraph_text (p, initial)) = Ok text
    /\ lower (strip text) = target.

Definition header_is_not (target : Py.str) (para : nat) : Prop :=
  exists p text,
    nth_error ps para = Some p
    /\ snd (Paragraph_text (p, initial)) = Ok text
    /\ lower (strip text) <> target.

End Blocks.

(** ** Paragraphs found by their text *)

Section Find.

Variable ps : list CT_P.
Variables (text : Py.str) (partial_match : bool).

(** The loop over [enumerate(doc.paragraphs)]. *)
Fixpoint find_paragraph_loop (i : Z) (paras : list nat)
    (matching_paragraphs : list Z) : SE (list block) (list Z) :=
  match paras with
  | [] => ret matching_paragraphs
  | para :: rest =>
    para_text <- text_of ps para ;;
    let matching_paragraphs :=
      if partial_match && Py.contains text para_text
      then matching_paragraphs ++ [i]
      else if negb partial_match && Py.eqb para_text text
           then matching_paragraphs ++ [i]
           else matching_paragraphs in
    find_paragraph_loop (i + 1) rest matching_paragraphs
  end.

Definition find_paragraph_by_text : SE (list block) (list Z) :=
  paras <- gets body_paragraphs ;;
  find_paragraph_loop 0 paras [].

End Find.

(** A paragraph whose object is there and whose text can be read. *)
Definition readable (ps : list CT_P) (para : nat) : Prop :=
  exists p text,
    nth_error ps para = Some p
    /\ snd (Paragraph_text (p, initial)) = Ok text.

(** ** Vocabulary of the properties *)

(** The characters the normaliser drops, and what it does to the others. *)
Definition invisible (x : Py.char) : bool :=
  N.eqb x ZWSP || N.eqb x ZWNJ || N.eqb x ZWJ || N.eqb x SHY || N.eqb x BOM.

Definition unbreak (x : Py.char) : Py.char :=
  if N.eqb x NBSP then SPACE else x.

(** The characters that [run.text = ...] turns into elements of their
    own. *)
Definition is_break (c : Py.char) : bool :=
  N.eqb c TAB || N.eqb c CR || N.eqb c LF.

Definition no_break (text : Py.str) : bool :=
  forallb (fun c => negb (is_break c)) text.

(** Two states with the same objects and the same [count]; they may
    differ in what has been printed. *)
Definition same_doc {X} (s1 s2 : X * globals) : Prop :=
  fst s1 = fst s2 /\ count (snd s1) = count (snd s2).

(** Two computations that, from such states, end in such states with the
    same value or exception. *)
Definition sim {X A} (m1 m2 : SE (X * globals) A) : Prop :=
  forall s1 s2, same_doc s1 s2 ->
    same_doc (fst (m1 s1)) (fst (m2 s2)) /\ snd (m1 s1) = snd (m2 s2).

(** A computation whose globals before and after are related by [I]. *)
Definition pres (I : globals -> globals -> Prop) {X A}
    (m : SE (X * globals) A) : Prop :=
  forall s, I (snd s) (snd (fst (m s))).

(** A computation that keeps the invariant [J] of the state, also when
    it raises. *)
Definition keeps {S A} (J : S -> Prop) (m : SE S A) : Prop :=
  forall s, J s -> J (fst (m s)).

(** A character the normaliser leaves as it is. *)
Definition clean (c : Py.char) : bool :=
  negb (invisible c) && negb (N.eqb c NBSP).

(** [full[i:].startswith(old)]: the needle occurs at position [i]. *)
Definition occurs_at (full old : Py.str) (i : nat) : bool :=
  Py.startswith (skipn i full) old.

(** The positions, from 0 to [len(full)], where the needle occurs. *)
Definition occurrences (full old : Py.str) : list nat :=
  filter (occurs_at full old) (seq 0 (List.length full + 1)).

Definition span_at (old : Py.str) (i : nat) : Z * Z :=
  (Z.of_nat i, Z.of_nat i + Py.len old).

(** Every run reference in the tree of a paragraph names one of its run
    objects, as in any paragraph that python-docx hands out. *)
Definition valid_refs (p : CT_P) : bool :=
  forallb (fun r => Nat.ltb r (List.length (elems p)))
          (flat_map find_all_runs (kids p)).

(** The texts of the run objects [rs] of a paragraph. *)
Definition texts_of (p : CT_P) (rs : list ref) : list Py.str :=
  flat_map (fun r => match nth_error (elems p) r with
                     | Some c => [CT_R_text c]
                     | None => []
                     end) rs.

(** The flattened text of the standard path. *)
Definition flattened (p : CT_P) : Py.str :=
  normalize_text_for_search (concat (run_texts p)).

(** Spans that tile [[a, b)]: each is non-empty and starts where the one
    before it ends. *)
Fixpoint tiles {A} (a b : Z) (run_map : list (span A)) : Prop :=
  match run_map with
  | [] => a = b
  | (s, e, _) :: rest => s = a /\ a < e /\ tiles e b rest
  end.

(** The spans of the texts [texts], the first of which starts at [start]
    and belongs to run [idx]; an empty text has no span. *)
Fixpoint spans_from (start idx : Z) (texts : list Py.str) : list (span Z) :=
  match texts with
  | [] => []
  | t :: ts =>
    (if start + Py.len t >? start then [(start, start + Py.len t, idx)] else [])
    ++ spans_from (start + Py.len t) (idx + 1) ts
  end.

(** The flattened text of the XML path: the normalised
    [build_xml_run_map] text of every run in the tree, in document
    order. *)
Definition xml_flattened (p : CT_P) : Py.str :=
  concat (map (fun c => normalize_text_for_search (xml_run_text c))
              (flat_map (fun r => match nth_error (elems p) r with
                                  | Some c => [c]
                                  | None => []
                                  end)
                        (flat_map find_all_runs (kids p)))).

(** The search text is in neither flattened text of the paragraph. *)
Definition not_found (old_text : Py.str) (p : CT_P) : bool :=
  negb (Py.contains (normalize_text_for_search old_text) (flattened p))
  && negb (Py.contains (normalize_text_for_search old_text) (xml_flattened p)).

(** What the plain replace operation keeps of a paragraph: its style,
    its tree, the properties of every run object, and the whole of every
    run object whose text does not hold the search text. *)
Definition kept (old_text : Py.str) (p p' : CT_P) : Prop :=
  style p' = style p
  /\ kids p' = kids p
  /\ map rPr (elems p') = map rPr (elems p)
  /\ forall r c,
       nth_error (elems p) r = Some c ->
       Py.contains old_text (CT_R_text c) = false ->
       nth_error (elems p') r = Some c.

(** The text that the tabs and line breaks of a run contribute. *)
Definition breaks (cs : list rchild) : Py.str :=
  flat_map (fun c => match c with
                     | w_tab => [TAB]
                     | w_br => [LF]
                     | _ => []
                     end) cs.

Definition has_t (cs : list rchild) : bool :=
  existsb (fun c => match c with w_t _ => true | _ => false end) cs.

(** A run that takes a text as it is given: it has a [w:t] element and
    neither tab nor line break. *)
Definition takes_text (e : CT_R) : bool :=
  has_t (content e)
  && forallb (fun c => match c with w_tab | w_br => false | _ => true end)
             (content e).

(** A run of text only: [w:t] elements, at least one, and no other
    content. *)
Definition text_only (e : CT_R) : bool :=
  has_t (content e)
  && forallb (fun c => match c with w_t _ => true | _ => false end)
             (content e).






(** ** Sample documents *)

(** The text "Hello" cut by a zero-width space, then a hyperlink. *)
Definition sample_paragraph : CT_P :=
  load None [plain "Hel"; Run (text_run None [ZWSP]); plain "lo";
             Box w_hyperlink [plain "link"]].

(** One run that holds the search text "world" in its middle. *)
Definition greeting_run : CT_R := text_run None (py "Hello world, friend").

Definition greeting : CT_P := load None [Run greeting_run].


(** A header paragraph and four paragraphs under it, with a table after
    the first. *)
Definition sample_paragraphs : list CT_P :=
  [load None [plain "intro"];
   load None [plain "one"];
   load None [plain "two"];
   load None [plain "three"];
   load None [plain "four"]].

Definition sample_body : list block :=
  [B_p 0; B_p 1; B_tbl []; B_p 2; B_p 3; B_p 4].

(** Stand-in for [str.lower] and [str.strip] on texts that are in lower
    case and have no space at either end. *)
Definition same (s : Py.str) : Py.str := s.



(** * Properties *)

(** ** Python strings *)

Lemma startswith_nil (s : Py.str) : Py.startswith s [] = true.
Proof. now destruct s. Qed.

Lemma replace_char_delete (s : Py.str) (c : Py.char) :
  Py.replace s [c] [] = filter (fun x => negb (N.eqb x c)) s.
Proof.
  unfold Py.replace.
  induction s as [|a s IH]; simpl; [reflexivity|].
  rewrite startswith_nil, andb_true_r.
  destruct (N.eqb a c); simpl; now rewrite IH.
Qed.

Lemma replace_char_char (s : Py.str) (c d : Py.char) :
  Py.replace s [c] [d] = map (fun x => if N.eqb x c then d else x) s.
Proof.
  unfold Py.replace.
  induction s as [|a s IH]; simpl; [reflexivity|].
  rewrite startswith_nil, andb_true_r.
  destruct (N.eqb a c); simpl; now rewrite IH.
Qed.

Lemma startswith_iff (p s : Py.str) :
  Py.startswith s p = true <-> exists post, s = p ++ post.
Proof.
  revert s. induction p as [|d p IH]; intro s.
  - rewrite startswith_nil. split; [intros _; now exists s | reflexivity].
  - destruct s as [|c s]; simpl.
    + split; [discriminate | intros [post H]; discriminate].
    + rewrite andb_true_iff, N.eqb_eq, IH. split.
      * intros [-> [post ->]]. now exists post.
      * intros [post H]. injection H as -> ->. split; [reflexivity | now exists post].
Qed.

Lemma find_at_none (sub s : Py.str) (pos : Z) :
  0 <= pos ->
  (Py.find_at sub s pos = -1
   <-> forall n, Py.startswith (skipn n s) sub = false).
Proof.
  revert pos. induction s as [|c s IH]; intros pos Hpos; cbn [Py.find_at].
  - destruct (Py.startswith [] sub) eqn:E.
    + split; [lia | intro H; specialize (H 0%nat); cbn [skipn] in H; congruence].
    + split; [intros _ n; now destruct n | reflexivity].
  - destruct (Py.startswith (c :: s) sub) eqn:E.
    + split; [lia | intro H; specialize (H 0%nat); cbn [skipn] in H; congruence].
    + rewrite IH by lia. split.
      * intros H [|n]; [exact E | apply H].
      * intros H n. apply (H (S n)).
Qed.

(** [sub in s] holds exactly when [sub] occurs in [s]. *)
Lemma contains_iff (sub s : Py.str) :
  Py.contains sub s = true <-> exists pre post, s = pre ++ sub ++ post.
Proof.
  unfold Py.contains, Py.find. change (Z.max 0 0) with 0.
  replace (Py.len s <? 0) with false
    by (symmetry; apply Z.ltb_ge; unfold Py.len; lia).
  cbn [Z.to_nat skipn]. rewrite negb_true_iff, Z.eqb_neq. split.
  - intro H.
    assert (N : ~ forall n, Py.startswith (skipn n s) sub = false)
      by (intro A; apply H; apply find_at_none; [lia | exact A]).
    assert (E : exists n, Py.startswith (skipn n s) sub = true).
    { clear H. induction s as [|c s IH].
      - destruct (Py.startswith [] sub) eqn:E; [now exists 0%nat|].
        exfalso. apply N. intro n. now destruct n.
      - destruct (Py.startswith (c :: s) sub) eqn:E; [now exists 0%nat|].
        destruct IH as [n Hn].
        + intro A. apply N. intros [|n]; [exact E | apply A].
        + now exists (S n). }
    destruct E as [n Hn]. apply startswith_iff in Hn. destruct Hn as [post Hn].
    exists (firstn n s), post. now rewrite <- Hn, firstn_skipn.
  - intros (pre & post & ->) H.
    rewrite find_at_none in H by lia.
    specialize (H (List.length pre)).
    rewrite skipn_app, skipn_all, Nat.sub_diag in H. cbn [skipn app] in H.
    assert (T : Py.startswith (sub ++ post) sub = true)
      by (apply startswith_iff; now exists post).
    congruence.
Qed.

(** ** Text normaliser *)

(** What the six [replace] calls amount to: the invisible characters are
    dropped and every no-break space becomes a space. *)
Lemma normalize_text_for_search_spec (s : Py.str) :
  normalize_text_for_search s
  = map unbreak (filter (fun x => negb (invisible x)) s).
Proof.
  unfold normalize_text_for_search.
  destruct s as [|a s]; [reflexivity|].
  cbv [Py.truthy negb].
  rewrite !replace_char_delete, replace_char_char.
  generalize (a :: s); intro l.
  induction l as [|x l IH]; [reflexivity|].
  cbn [filter]. unfold invisible at 1.
  destruct (N.eqb x ZWSP) eqn:E1; cbn [negb orb]; [exact IH|].
  cbn [filter].
  destruct (N.eqb x ZWNJ) eqn:E2; cbn [negb orb]; [exact IH|].
  cbn [filter].
  destruct (N.eqb x ZWJ) eqn:E3; cbn [negb orb]; [exact IH|].
  cbn [filter].
  destruct (N.eqb x SHY) eqn:E4; cbn [negb orb]; [exact IH|].
  cbn [filter].
  destruct (N.eqb x BOM) eqn:E5; cbn [negb orb]; [exact IH|].
  cbn [map]. now rewrite <- IH.
Qed.

Lemma unbreak_visible (x : Py.char) :
  invisible x = false -> invisible (unbreak x) = false.
Proof.
  unfold unbreak. destruct (N.eqb x NBSP); [reflexivity | auto].
Qed.

Lemma unbreak_idem (x : Py.char) : unbreak (unbreak x) = unbreak x.
Proof.
  unfold unbreak. destruct (N.eqb x NBSP) eqn:E; [reflexivity|].
  now rewrite E.
Qed.

(** C8: text normalisation is idempotent. *)
Theorem normalize_text_for_search_idempotent (s : Py.str) :
  normalize_text_for_search (normalize_text_for_search s)
  = normalize_text_for_search s.
Proof.
  rewrite !normalize_text_for_search_spec.
  induction s as [|x s IH]; [reflexivity|].
  cbn [filter]. destruct (invisible x) eqn:E; cbn [negb]; [exact IH|].
  cbn [map filter]. rewrite (unbreak_visible _ E). cbn [negb map].
  now rewrite unbreak_idem, IH.
Qed.

(** ** Match locator *)

Lemma find_at_range (sub s : Py.str) (pos : Z) :
  Py.find_at sub s pos = -1
  \/ pos <= Py.find_at sub s pos <= pos + Py.len s.
Proof.
  revert pos. unfold Py.len.
  induction s as [|c s IH]; intro pos; cbn [Py.find_at].
  - destruct (Py.startswith [] sub); [right; cbn [List.length]; lia | now left].
  - destruct (Py.startswith (c :: s) sub).
    + right. cbn [List.length]. lia.
    + destruct (IH (pos + 1)) as [E | E]; [now left | right].
      cbn [List.length]. lia.
Qed.

Lemma find_range (s sub : Py.str) (start : Z) :
  Py.find s sub start = -1
  \/ Z.max 0 start <= Py.find s sub start <= Py.len s.
Proof.
  unfold Py.find.
  destruct (Py.len s <? Z.max 0 start) eqn:E; [now left|].
  apply Z.ltb_ge in E.
  destruct (find_at_range sub (skipn (Z.to_nat (Z.max 0 start)) s) (Z.max 0 start))
    as [H | H]; [now left | right].
  unfold Py.len in *. rewrite length_skipn in H. lia.
Qed.

Lemma find_matches_enough_fuel (fuel : nat) (full_text old : Py.str) :
  forall (start : Z) (acc : list (Z * Z)),
    0 <= start ->
    1 <= Z.of_nat fuel ->
    Py.len full_text - start + 2 <= Z.of_nat fuel ->
    find_matches fuel full_text old start acc <> None.
Proof.
  induction fuel as [|fuel IH]; intros start acc Hs H1 H2; [lia|].
  simpl find_matches.
  destruct (Py.find full_text old start =? -1) eqn:E; [discriminate|].
  apply Z.eqb_neq in E.
  destruct (find_range full_text old start) as [F | F]; [contradiction|].
  apply IH; lia.
Qed.

(** The loop of the match locator ends: the passes allowed to it are
    never used up. *)
Theorem locate_total (full_text old : Py.str) :
  exists matches, locate full_text old = Some matches.
Proof.
  destruct (locate full_text old) as [m|] eqn:E; [now exists m|].
  exfalso. revert E. apply find_matches_enough_fuel; unfold Py.len; lia.
Qed.

(** A needle that does not occur gives no match span. *)
Lemma all_matches_absent (full_text old : Py.str) :
  Py.contains old full_text = false -> all_matches full_text old = [].
Proof.
  unfold Py.contains, all_matches, locate. intro H.
  apply negb_false_iff in H.
  replace (List.length full_text + 2)%nat with (S (List.length full_text + 1))
    by lia.
  simpl find_matches. now rewrite H.
Qed.

(** ** Runs that differ in what is printed only

    Nothing in the code reads [stdout]: every computation simulates
    itself, and a debug print simulates any other. *)

Section Simulation.

Context {X : Type}.

Local Abbreviation simX := (@sim X _) (only parsing).

Lemma sim_ret {A} (a : A) : simX (ret a) (ret a).
Proof. intros s1 s2 H. now split. Qed.

Lemma sim_raise {A} (e : exn) : simX (@raise _ A e) (raise e).
Proof. intros s1 s2 H. now split. Qed.

Lemma sim_bind {A B} (m1 m2 : SE (X * globals) A)
    (k1 k2 : A -> SE (X * globals) B) :
  simX m1 m2 -> (forall a, simX (k1 a) (k2 a)) -> simX (bind m1 k1) (bind m2 k2).
Proof.
  intros Hm Hk s1 s2 H. unfold bind.
  destruct (Hm s1 s2 H) as [Hs Hr].
  destruct (m1 s1) as [s1' r1], (m2 s2) as [s2' r2]. simpl in Hs, Hr.
  subst r2. destruct r1 as [a | e]; [now apply Hk | now split].
Qed.

Lemma sim_gets {A} (f : X * globals -> A) :
  (forall s1 s2, same_doc s1 s2 -> f s1 = f s2) -> simX (gets f) (gets f).
Proof. intros Hf s1 s2 H. split; [exact H | simpl; f_equal; now apply Hf]. Qed.

Lemma sim_modify (f : X * globals -> X * globals) :
  (forall s1 s2, same_doc s1 s2 -> same_doc (f s1) (f s2)) ->
  simX (modify f) (modify f).
Proof. intros Hf s1 s2 H. split; [now apply Hf | reflexivity]. Qed.

Lemma sim_of_option {A} (e : exn) (o : option A) :
  simX (of_option e o) (of_option e o).
Proof. destruct o; [apply sim_ret | apply sim_raise]. Qed.

Lemma sim_print (l1 l2 : Py.str) : simX (print l1) (print l2).
Proof. intros s1 s2 [H1 H2]. now repeat split. Qed.

(** Whatever the debug flag and the message. *)
Lemma sim_dbg (d1 d2 : bool) (msg1 msg2 : Py.str) :
  simX (_dbg d1 msg1) (_dbg d2 msg2).
Proof.
  intros s1 s2 [H1 H2]. unfold _dbg.
  destruct d1, d2; now repeat split.
Qed.

Lemma sim_when (b : bool) (m1 m2 : SE (X * globals) unit) :
  simX m1 m2 -> simX (when b m1) (when b m2).
Proof. intro H. destruct b; [exact H | apply sim_ret]. Qed.

Lemma sim_for_each {A} (l : list A) (f1 f2 : A -> SE (X * globals) unit) :
  (forall a, simX (f1 a) (f2 a)) -> simX (for_each l f1) (for_each l f2).
Proof.
  intro H. induction l as [|a l IH]; simpl; [apply sim_ret|].
  apply sim_bind; [apply H | intros _; exact IH].
Qed.

Lemma sim_map_m {A B} (l : list A) (f1 f2 : A -> SE (X * globals) B) :
  (forall a, simX (f1 a) (f2 a)) -> simX (map_m f1 l) (map_m f2 l).
Proof.
  intro H. induction l as [|a l IH]; simpl; [apply sim_ret|].
  apply sim_bind; [apply H | intro b].
  apply sim_bind; [exact IH | intro bs; apply sim_ret].
Qed.

End Simulation.

Create HintDb sim discriminated.

#[local] Hint Resolve sim_ret sim_raise sim_of_option sim_print sim_dbg : sim.

(** One step of a simulation proof: follow the shape of the code. *)
Ltac sim_step :=
  first
    [ apply sim_ret
    | apply sim_raise
    | apply sim_dbg
    | apply sim_of_option
    | apply sim_bind; [| intro]
    | apply sim_when
    | apply sim_for_each; intro
    | apply sim_map_m; intro
    | match goal with
      | |- sim (if ?b then _ else _) (if ?b then _ else _) => destruct b
      | |- sim (match ?x with _ => _ end) (match ?x with _ => _ end) =>
        destruct x
      | |- sim (let '(_, _) := ?x in _) (let '(_, _) := ?x in _) => destruct x
      end
    | solve [eauto with sim] ].

Ltac sim_auto := repeat sim_step.

Lemma sim_get_para : sim get_para get_para.
Proof. apply sim_gets. now intros s1 s2 [H _]. Qed.

Lemma sim_set_para (f : CT_P -> CT_P) : sim (set_para f) (set_para f).
Proof.
  apply sim_modify. intros s1 s2 [H1 H2]. split; simpl; [now rewrite H1 | exact H2].
Qed.

Lemma sim_runs : sim runs runs.
Proof. apply sim_gets. intros s1 s2 [H _]. now rewrite H. Qed.

Lemma sim_incr_count : sim incr_count incr_count.
Proof.
  apply sim_modify. intros s1 s2 [H1 H2]. split; simpl; [exact H1 | now rewrite H2].
Qed.

#[local] Hint Resolve sim_get_para sim_set_para sim_runs sim_incr_count : sim.

Lemma sim_get_elem (r : ref) : sim (get_elem r) (get_elem r).
Proof. unfold get_elem. sim_auto. Qed.

Lemma sim_set_elem (r : ref) (e : CT_R) : sim (set_elem r e) (set_elem r e).
Proof. unfold set_elem. sim_auto. Qed.

Lemma sim_new_elem (e : CT_R) : sim (new_elem e) (new_elem e).
Proof. unfold new_elem. sim_auto. Qed.

Lemma sim_set_kids (ks : list elem) : sim (set_kids ks) (set_kids ks).
Proof. unfold set_kids. sim_auto. Qed.

#[local] Hint Resolve sim_get_elem sim_set_elem sim_new_elem sim_set_kids : sim.

Lemma sim_Run_text (r : ref) : sim (Run_text r) (Run_text r).
Proof. unfold Run_text. sim_auto. Qed.

Lemma sim_Run_set_text (r : ref) (t : Py.str) :
  sim (Run_set_text r t) (Run_set_text r t).
Proof. unfold Run_set_text. sim_auto. Qed.

Lemma sim_addnext (a b : ref) : sim (addnext a b) (addnext a b).
Proof. unfold addnext. sim_auto. Qed.

Lemma sim_addprevious (a b : ref) : sim (addprevious a b) (addprevious a b).
Proof. unfold addprevious. sim_auto. Qed.

Lemma sim_getparent_remove (r : ref) :
  sim (getparent_remove r) (getparent_remove r).
Proof. unfold getparent_remove. sim_auto. Qed.

#[local] Hint Resolve sim_Run_text sim_Run_set_text sim_addnext sim_addprevious
  sim_getparent_remove : sim.

Lemma sim_clone_run_with_text (r : ref) (t : Py.str) :
  sim (clone_run_with_text r t) (clone_run_with_text r t).
Proof. unfold clone_run_with_text. sim_auto. Qed.

#[local] Hint Resolve sim_clone_run_with_text : sim.

Lemma sim_split_run_at (r : ref) (k : Z) :
  sim (split_run_at r k) (split_run_at r k).
Proof. unfold split_run_at. sim_auto. Qed.

#[local] Hint Resolve sim_split_run_at : sim.

Lemma sim_build_run_map (rs : list ref) :
  forall run_idx full_text run_map,
    sim (build_run_map rs run_idx full_text run_map)
        (build_run_map rs run_idx full_text run_map).
Proof.
  induction rs as [|run rs IH]; intros; simpl; sim_auto.
Qed.

Lemma sim_xml_run_map_loop (rs : list ref) :
  forall full_text xml_run_map,
    sim (xml_run_map_loop rs full_text xml_run_map)
        (xml_run_map_loop rs full_text xml_run_map).
Proof.
  induction rs as [|run rs IH]; intros; simpl; sim_auto.
Qed.

#[local] Hint Resolve sim_build_run_map sim_xml_run_map_loop : sim.

Lemma sim_build_xml_run_map : sim build_xml_run_map build_xml_run_map.
Proof. unfold build_xml_run_map. sim_auto. Qed.

Lemma sim_replacement_loop (rs : list ref) :
  forall n i remaining_text replacement_runs,
    sim (replacement_loop n i rs remaining_text replacement_runs)
        (replacement_loop n i rs remaining_text replacement_runs).
Proof.
  induction rs as [|run rs IH]; intros; simpl; sim_auto.
Qed.

Lemma sim_xml_replacement_loop (rs : list xml_affected) :
  forall n i remaining_text replacement_runs,
    sim (xml_replacement_loop n i rs remaining_text replacement_runs)
        (xml_replacement_loop n i rs remaining_text replacement_runs).
Proof.
  induction rs as [|[[[run a] b] c] rs IH]; intros; simpl; sim_auto.
Qed.

#[local] Hint Resolve sim_build_xml_run_map sim_replacement_loop
  sim_xml_replacement_loop : sim.

Section DebugFlag.

Variables d1 d2 : bool.
Variables new_text old_text : Py.str.

Lemma sim_process_match_standard (run_map : list (span Z)) (m : Z * Z) :
  sim (process_match_standard d1 new_text run_map m)
      (process_match_standard d2 new_text run_map m).
Proof.
  unfold process_match_standard.
  destruct m as [match_start match_end].
  destruct (affected run_map match_start match_end) as [|[[[i a] b] c] l];
    [apply sim_ret|].
  destruct (last _ _) as [[[j a'] b'] c'].
  sim_auto.
Qed.

Lemma sim_process_match_xml (xml_run_map : list (span ref)) (m : Z * Z) :
  sim (process_match_xml d1 new_text xml_run_map m)
      (process_match_xml d2 new_text xml_run_map m).
Proof.
  unfold process_match_xml.
  destruct m as [match_start match_end].
  sim_auto.
Qed.

Lemma sim_process_paragraph_standard full_text run_map old_text_norm :
  sim (process_paragraph_standard d1 new_text full_text run_map old_text_norm)
      (process_paragraph_standard d2 new_text full_text run_map old_text_norm).
Proof.
  unfold process_paragraph_standard. sim_auto.
  apply sim_process_match_standard.
Qed.

Lemma sim_process_paragraph_xml full_text run_map old_text_norm :
  sim (process_paragraph_xml d1 new_text full_text run_map old_text_norm)
      (process_paragraph_xml d2 new_text full_text run_map old_text_norm).
Proof.
  unfold process_paragraph_xml. sim_auto.
  apply sim_process_match_xml.
Qed.

Lemma sim_process_paragraph :
  sim (process_paragraph d1 new_text old_text)
      (process_paragraph d2 new_text old_text).
Proof.
  unfold process_paragraph. sim_auto.
  - apply sim_process_paragraph_standard.
  - apply sim_process_paragraph_xml.
Qed.

End DebugFlag.

Lemma sim_at_para {A} (p : nat) (m1 m2 : PM A) :
  sim m1 m2 -> sim (at_para p m1) (at_para p m2).
Proof.
  intros H [ps1 g1] [ps2 g2] [E1 E2]. simpl in E1, E2. subst ps2.
  unfold at_para. simpl fst. simpl snd.
  destruct (nth_error ps1 p) as [para|]; [|now repeat split].
  assert (S : same_doc (para, g1) (para, g2)) by now split.
  destruct (H _ _ S) as [[F1 F2] F3].
  destruct (m1 (para, g1)) as [[p1 h1] r1], (m2 (para, g2)) as [[p2 h2] r2].
  simpl in *. subst. now repeat split.
Qed.

Lemma sim_set_count (n : Z) : sim (set_count n) (set_count n).
Proof. apply sim_modify. intros s1 s2 [H1 H2]. now split. Qed.

Lemma sim_get_count : sim get_count get_count.
Proof. apply sim_gets. now intros s1 s2 [_ H]. Qed.

#[local] Hint Resolve sim_set_count sim_get_count : sim.

(** The replace call under two values of the debug variable. *)
Lemma sim_find_and_replace_text_preserve_formatting
    (env1 env2 : option Py.str) (doc : Document) (old_text new_text : Py.str) :
  sim (find_and_replace_text_preserve_formatting env1 doc old_text new_text)
      (find_and_replace_text_preserve_formatting env2 doc old_text new_text).
Proof.
  unfold find_and_replace_text_preserve_formatting.
  sim_auto; apply sim_at_para, sim_process_paragraph.
Qed.

(** C10: the environment variable MCP_WORD_DEBUG_FIND_REPLACE has no part
    in the result. From the same document, under any two values of the
    variable (set to '1', set to something else, unset), the call ends
    with the same paragraph objects and returns the same count or raises
    the same exception; what has been printed before the call has no
    part in it either. *)
Theorem debug_variable_does_not_change_the_result
    (env1 env2 : option Py.str) (doc : Document) (old_text new_text : Py.str)
    (paras : list CT_P) (g1 g2 : globals) :
  let r1 := find_and_replace_text_preserve_formatting env1 doc old_text new_text
              (paras, g1) in
  let r2 := find_and_replace_text_preserve_formatting env2 doc old_text new_text
              (paras, g2) in
  fst (fst r1) = fst (fst r2) /\ snd r1 = snd r2.
Proof.
  intros r1 r2.
  pose proof (sim_find_and_replace_text_preserve_formatting env1 env2 doc
                old_text new_text) as S0.
  destruct (S0 (paras, mk_glob 0 (stdout g1)) (paras, mk_glob 0 (stdout g2)))
    as [[H1 _] H2]; [now split|].
  split.
  - subst r1 r2. revert H1.
    unfold find_and_replace_text_preserve_formatting, bind, set_count, modify.
    simpl. auto.
  - subst r1 r2. revert H2.
    unfold find_and_replace_text_preserve_formatting, bind, set_count, modify.
    simpl. auto.
Qed.

(** ** What a computation does to [count] and [stdout]

    [I before after] relates the globals before a computation to those
    after it; the lemmas hold for every reflexive and transitive [I] that
    [count += 1] and the debug print of the flag [d] respect. *)

Section Preservation.

Variable I : globals -> globals -> Prop.
Hypothesis I_refl : forall g, I g g.
Hypothesis I_trans : forall a b c, I a b -> I b c -> I a c.
Hypothesis I_incr : forall g, I g (mk_glob (count g + 1) (stdout g)).

Variable d : bool.
Hypothesis I_dbg :
  forall msg g,
    I g (if d then mk_glob (count g) (stdout g ++ [py "[find_replace] " ++ msg])
         else g).

Context {X : Type}.

Lemma pres_ret {A} (a : A) : pres I (@ret (X * globals) A a).
Proof. intro s. apply I_refl. Qed.

Lemma pres_raise {A} (e : exn) : pres I (@raise (X * globals) A e).
Proof. intro s. apply I_refl. Qed.

Lemma pres_bind {A B} (m : SE (X * globals) A) (k : A -> SE (X * globals) B) :
  pres I m -> (forall a, pres I (k a)) -> pres I (bind m k).
Proof.
  intros Hm Hk s. unfold bind. specialize (Hm s).
  destruct (m s) as [s' [a | e]]; [|exact Hm].
  eapply I_trans; [exact Hm | apply Hk].
Qed.

Lemma pres_gets {A} (f : X * globals -> A) : pres I (gets f).
Proof. intro s. apply I_refl. Qed.

Lemma pres_of_option {A} (e : exn) (o : option A) :
  pres I (@of_option (X * globals) A e o).
Proof. destruct o; [apply pres_ret | apply pres_raise]. Qed.

Lemma pres_dbg (msg : Py.str) : pres I (@_dbg d X msg).
Proof.
  intros [x g]. unfold _dbg. specialize (I_dbg msg g).
  destruct d; exact I_dbg.
Qed.

Lemma pres_when (b : bool) (m : SE (X * globals) unit) :
  pres I m -> pres I (when b m).
Proof. intro H. destruct b; [exact H | apply pres_ret]. Qed.

Lemma pres_for_each {A} (l : list A) (f : A -> SE (X * globals) unit) :
  (forall a, pres I (f a)) -> pres I (for_each l f).
Proof.
  intro H. induction l as [|a l IH]; simpl; [apply pres_ret|].
  apply pres_bind; [apply H | intros _; exact IH].
Qed.

Lemma pres_map_m {A B} (l : list A) (f : A -> SE (X * globals) B) :
  (forall a, pres I (f a)) -> pres I (map_m f l).
Proof.
  intro H. induction l as [|a l IH]; simpl; [apply pres_ret|].
  apply pres_bind; [apply H | intro b].
  apply pres_bind; [exact IH | intro bs; apply pres_ret].
Qed.

End Preservation.

Ltac pres_step :=
  first
    [ apply pres_ret; assumption
    | apply pres_raise; assumption
    | apply pres_gets; assumption
    | apply pres_dbg; assumption
    | apply pres_of_option; assumption
    | apply pres_bind; [assumption | | intro]
    | apply pres_when; [assumption |]
    | apply pres_for_each; [assumption | assumption | intro]
    | apply pres_map_m; [assumption | assumption | intro]
    | match goal with
      | |- pres _ (if ?b then _ else _) => destruct b
      | |- pres _ (match ?x with _ => _ end) => destruct x
      end
    | solve [eauto] ].

Ltac pres_auto := repeat pres_step.

Section PreservationOfTheCode.

Variable I : globals -> globals -> Prop.
Hypothesis I_refl : forall g, I g g.
Hypothesis I_trans : forall a b c, I a b -> I b c -> I a c.
Hypothesis I_incr : forall g, I g (mk_glob (count g + 1) (stdout g)).

Variable d : bool.
Hypothesis I_dbg :
  forall msg g,
    I g (if d then mk_glob (count g) (stdout g ++ [py "[find_replace] " ++ msg])
         else g).

Lemma pres_set_para (f : CT_P -> CT_P) : pres I (set_para f).
Proof. intro s. apply I_refl. Qed.

Lemma pres_incr_count : pres I incr_count.
Proof. intro s. apply I_incr. Qed.

Local Hint Resolve pres_set_para pres_incr_count : core.

Lemma pres_get_elem (r : ref) : pres I (get_elem r).
Proof. unfold get_elem, get_para. pres_auto. Qed.

Lemma pres_set_elem (r : ref) (e : CT_R) : pres I (set_elem r e).
Proof. unfold set_elem. pres_auto. Qed.

Lemma pres_new_elem (e : CT_R) : pres I (new_elem e).
Proof. unfold new_elem, get_para. pres_auto. Qed.

Lemma pres_set_kids (ks : list elem) : pres I (set_kids ks).
Proof. unfold set_kids. pres_auto. Qed.

Local Hint Resolve pres_get_elem pres_set_elem pres_new_elem pres_set_kids : core.

Lemma pres_Run_text (r : ref) : pres I (Run_text r).
Proof. unfold Run_text. pres_auto. Qed.

Lemma pres_Run_set_text (r : ref) (t : Py.str) : pres I (Run_set_text r t).
Proof. unfold Run_set_text. pres_auto. Qed.

Lemma pres_addnext (a b : ref) : pres I (addnext a b).
Proof. unfold addnext, get_para. pres_auto. Qed.

Lemma pres_addprevious (a b : ref) : pres I (addprevious a b).
Proof. unfold addprevious, get_para. pres_auto. Qed.

Lemma pres_getparent_remove (r : ref) : pres I (getparent_remove r).
Proof. unfold getparent_remove, get_para. pres_auto. Qed.

Lemma pres_clone_run_with_text (r : ref) (t : Py.str) :
  pres I (clone_run_with_text r t).
Proof. unfold clone_run_with_text. pres_auto. Qed.

Local Hint Resolve pres_Run_text pres_Run_set_text pres_addnext
  pres_addprevious pres_getparent_remove pres_clone_run_with_text : core.

Lemma pres_split_run_at (r : ref) (k : Z) : pres I (split_run_at r k).
Proof. unfold split_run_at. pres_auto. Qed.

Local Hint Resolve pres_split_run_at : core.

Lemma pres_build_run_map (rs : list ref) :
  forall run_idx full_text run_map,
    pres I (build_run_map rs run_idx full_text run_map).
Proof. induction rs as [|run rs IH]; intros; simpl; pres_auto. Qed.

Lemma pres_xml_run_map_loop (rs : list ref) :
  forall full_text xml_run_map,
    pres I (xml_run_map_loop rs full_text xml_run_map).
Proof. induction rs as [|run rs IH]; intros; simpl; pres_auto. Qed.

Local Hint Resolve pres_build_run_map pres_xml_run_map_loop : core.

Lemma pres_build_xml_run_map : pres I build_xml_run_map.
Proof. unfold build_xml_run_map, get_para. pres_auto. Qed.

Variable new_text : Py.str.

Lemma pres_replacement_loop (rs : list ref) :
  forall n i remaining_text replacement_runs,
    pres I (replacement_loop n i rs remaining_text replacement_runs).
Proof. induction rs as [|run rs IH]; intros; simpl; pres_auto. Qed.

Lemma pres_xml_replacement_loop (rs : list xml_affected) :
  forall n i remaining_text replacement_runs,
    pres I (xml_replacement_loop n i rs remaining_text replacement_runs).
Proof.
  induction rs as [|[[[run a] b] c] rs IH]; intros; simpl; pres_auto.
Qed.

Local Hint Resolve pres_build_xml_run_map pres_replacement_loop
  pres_xml_replacement_loop : core.

Lemma pres_process_match_standard (run_map : list (span Z)) (m : Z * Z) :
  pres I (process_match_standard d new_text run_map m).
Proof.
  unfold process_match_standard, runs.
  destruct m as [match_start match_end].
  destruct (affected run_map match_start match_end) as [|[[[i a] b] c] l];
    [now apply pres_ret|].
  destruct (last _ _) as [[[j a'] b'] c'].
  pres_auto.
Qed.

Lemma pres_process_match_xml (xml_run_map : list (span ref)) (m : Z * Z) :
  pres I (process_match_xml d new_text xml_run_map m).
Proof.
  unfold process_match_xml.
  destruct m as [match_start match_end].
  pres_auto.
Qed.

Local Hint Resolve pres_process_match_standard pres_process_match_xml : core.

Lemma pres_process_paragraph_standard full_text run_map old_text_norm :
  pres I (process_paragraph_standard d new_text full_text run_map old_text_norm).
Proof. unfold process_paragraph_standard. pres_auto. Qed.

Lemma pres_process_paragraph_xml full_text run_map old_text_norm :
  pres I (process_paragraph_xml d new_text full_text run_map old_text_norm).
Proof. unfold process_paragraph_xml. pres_auto. Qed.

Local Hint Resolve pres_process_paragraph_standard pres_process_paragraph_xml : core.

Lemma pres_process_paragraph (old_text : Py.str) :
  pres I (process_paragraph d new_text old_text).
Proof. unfold process_paragraph, get_para, runs. pres_auto. Qed.

Lemma pres_at_para {A} (p : nat) (m : PM A) : pres I m -> pres I (at_para p m).
Proof.
  intros H [ps g]. unfold at_para. simpl fst. simpl snd.
  destruct (nth_error ps p) as [para|]; [|apply I_refl].
  specialize (H (para, g)).
  destruct (m (para, g)) as [[p' g'] r]. exact H.
Qed.

End PreservationOfTheCode.

(** ** Loops *)

Lemma for_each_ext {S A} (l : list A) (f g : A -> SE S unit) (s : S) :
  (forall a s, f a s = g a s) -> for_each l f s = for_each l g s.
Proof.
  intro H. revert s. induction l as [|a l IH]; intro s; simpl; [reflexivity|].
  unfold bind. rewrite H. destruct (g a s) as [s' [[]|e]]; auto.
Qed.

Lemma for_each_app {S A} (l1 l2 : list A) (f : A -> SE S unit) (s : S) :
  for_each (l1 ++ l2) f s = (for_each l1 f ;; for_each l2 f) s.
Proof.
  revert s. induction l1 as [|a l1 IH]; intro s; simpl; [reflexivity|].
  unfold bind in *. destruct (f a s) as [s' [[]|e]]; [apply IH | reflexivity].
Qed.

Lemma for_each_flat_map {S A B} (g : A -> list B) (f : B -> SE S unit)
    (l : list A) (s : S) :
  for_each l (fun a => for_each (g a) f) s = for_each (flat_map g l) f s.
Proof.
  revert s. induction l as [|a l IH]; intro s; simpl; [reflexivity|].
  rewrite for_each_app. unfold bind.
  destruct (for_each (g a) f s) as [s' [[]|e]]; [apply IH | reflexivity].
Qed.

(** A loop either completes or stops at the first element whose body
    raises, in the state that body left. *)
Lemma for_each_outcome {S A} (l : list A) (f : A -> SE S unit) (s : S) :
  match for_each l f s with
  | (s', Ok _) => True
  | (s', Raise e) =>
    exists done x rest s1,
      l = done ++ x :: rest
      /\ for_each done f s = (s1, Ok tt)
      /\ f x s1 = (s', Raise e)
  end.
Proof.
  revert s. induction l as [|a l IH]; intro s; simpl; [exact Logic.I|].
  unfold bind. destruct (f a s) as [s1 [[]|e]] eqn:E.
  - specialize (IH s1). destruct (for_each l f s1) as [s' [[]|e]]; [exact Logic.I|].
    destruct IH as (done & x & rest & s2 & H1 & H2 & H3).
    exists (a :: done), x, rest, s2. repeat split.
    + now rewrite H1.
    + simpl. unfold bind. now rewrite E.
    + exact H3.
  - exists [], a, l, s. now repeat split.
Qed.

(** The nested loops of the replace operations visit [walk doc]. *)
Lemma nested_loops_walk {S} (doc : Document) (f : nat -> SE S unit) (s : S) :
  (for_each (paragraphs doc) f ;;
   for_each (tables doc) (fun table =>
     for_each table (fun row =>
       for_each row (fun cell =>
         for_each cell f)))) s
  = for_each (walk doc) f s.
Proof.
  unfold walk. rewrite for_each_app. unfold bind.
  destruct (for_each (paragraphs doc) f s) as [s' [[]|e]]; [|reflexivity].
  rewrite <- for_each_flat_map. apply for_each_ext. intros table s1.
  rewrite <- for_each_flat_map. apply for_each_ext. intros row s2.
  now rewrite <- for_each_flat_map.
Qed.

(** ** Invariants of the document *)

Lemma nth_error_update_same {A} (l : list A) (i : nat) (x y : A) :
  nth_error l i = Some y -> nth_error (update l i x) i = Some x.
Proof.
  revert i. induction l as [|a l IH]; intros [|i] H; simpl in *;
    try discriminate; auto.
Qed.

Lemma nth_error_update_other {A} (l : list A) (i j : nat) (x : A) :
  i <> j -> nth_error (update l i x) j = nth_error l j.
Proof.
  revert i j. induction l as [|a l IH]; intros [|i] [|j] H; simpl;
    try reflexivity; [contradiction | apply IH; congruence].
Qed.

Section Keeps.

Context {S : Type}.
Variable J : S -> Prop.

Lemma keeps_bind {A B} (m : SE S A) (k : A -> SE S B) :
  keeps J m -> (forall a, keeps J (k a)) -> keeps J (bind m k).
Proof.
  intros Hm Hk s H. unfold bind. specialize (Hm s H).
  destruct (m s) as [s' [a|e]]; [now apply Hk | exact Hm].
Qed.

Lemma keeps_ret {A} (a : A) : keeps J (ret a).
Proof. intros s H. exact H. Qed.

Lemma keeps_for_each {A} (l : list A) (f : A -> SE S unit) :
  (forall a, keeps J (f a)) -> keeps J (for_each l f).
Proof.
  intro H. induction l as [|a l IH]; simpl; [apply keeps_ret|].
  apply keeps_bind; [apply H | intros _; exact IH].
Qed.

End Keeps.

(** A paragraph computation that leaves paragraph object [P] as it is,
    run on whichever paragraph of the document, leaves [P] in its place:
    a paragraph owns its runs, and no other paragraph is touched. *)
Lemma keeps_at_para {A} (i : nat) (P : CT_P) (q : nat) (m : PM A) :
  (forall g, fst (fst (m (P, g))) = P) ->
  keeps (fun w : world => nth_error (fst w) i = Some P) (at_para q m).
Proof.
  intros Hm [ps g] H. simpl in H. unfold at_para. simpl fst. simpl snd.
  destruct (nth_error ps q) as [para|] eqn:E; [|exact H].
  destruct (m (para, g)) as [[para' g'] r] eqn:Em. simpl.
  destruct (Nat.eq_dec q i) as [-> | Hne].
  - rewrite H in E. injection E as <-.
    specialize (Hm g). rewrite Em in Hm. simpl in Hm. subst para'.
    now apply nth_error_update_same with (y := P).
  - now rewrite nth_error_update_other.
Qed.

Lemma process_paragraph_toc (d : bool) (new_text old_text : Py.str)
    (P : CT_P) (g : globals) :
  is_toc P = true ->
  process_paragraph d new_text old_text (P, g) = ((P, g), Ok tt).
Proof.
  intro H. unfold process_paragraph, bind, get_para, gets. simpl.
  now rewrite H.
Qed.

Lemma replace_in_paragraph_toc (old_text new_text : Py.str)
    (P : CT_P) (g : globals) :
  is_toc P = true ->
  replace_in_paragraph old_text new_text (P, g) = ((P, g), Ok tt).
Proof.
  intro H. unfold replace_in_paragraph, bind, get_para, gets. simpl.
  now rewrite H.
Qed.

(** C6: a paragraph whose style name starts with "TOC" comes out of both
    replace operations as it went in: the same style, the same tree of
    children and the same run objects, whatever the search text, also
    when the call raises. *)
Theorem toc_paragraph_is_never_modified
    (env : option Py.str) (doc : Document) (old_text new_text : Py.str)
    (w : world) (i : nat) (P : CT_P) :
  nth_error (fst w) i = Some P ->
  is_toc P = true ->
  nth_error
    (fst (fst (find_and_replace_text_preserve_formatting env doc old_text new_text w)))
    i = Some P
  /\ nth_error (fst (fst (find_and_replace_text doc old_text new_text w))) i
     = Some P.
Proof.
  intros H T.
  pose (J := fun w : world => nth_error (fst w) i = Some P).
  assert (G : forall A (f : world -> A), keeps J (gets f)) by (intros A f s Hs; exact Hs).
  assert (C : forall n, keeps J (set_count n)) by (intros n s Hs; exact Hs).
  split.
  - change (J (fst (find_and_replace_text_preserve_formatting env doc old_text new_text w))).
    revert w H. change (keeps J (find_and_replace_text_preserve_formatting env doc old_text new_text)).
    unfold find_and_replace_text_preserve_formatting.
    repeat first
      [ apply keeps_bind; [| intro]
      | apply keeps_for_each; intro
      | apply keeps_ret
      | apply C
      | apply G
      | apply keeps_at_para; intro g; now rewrite process_paragraph_toc ].
    intros [ps g] Hs. unfold _dbg. destruct (Py.eqb _ _); exact Hs.
  - change (J (fst (find_and_replace_text doc old_text new_text w))).
    revert w H. change (keeps J (find_and_replace_text doc old_text new_text)).
    unfold find_and_replace_text, get_count.
    repeat first
      [ apply keeps_bind; [| intro]
      | apply keeps_for_each; intro
      | apply keeps_ret
      | apply C
      | apply G
      | apply keeps_at_para; intro g; now rewrite replace_in_paragraph_toc ].
Qed.

(** ** The replace call as a whole *)

Lemma replace_call_walk (env : option Py.str) (doc : Document)
    (old_text new_text : Py.str) (w : world) :
  let d := Py.eqb (getenv env (py "0")) (py "1") in
  find_and_replace_text_preserve_formatting env doc old_text new_text w
  = (for_each (walk doc) (fun para =>
       at_para para (process_paragraph d new_text old_text)) ;;
     n <- get_count ;;
     _dbg d (py "Total replacements: " ++ str_of_int n) ;;
     ret n) (fst w, mk_glob 0 (stdout (snd w))).
Proof.
  intro d. unfold find_and_replace_text_preserve_formatting.
  fold d. unfold bind, set_count, modify.
  rewrite <- nested_loops_walk. unfold bind.
  destruct (for_each (paragraphs doc) _ _) as [s1 [[]|e]]; reflexivity.
Qed.

Lemma count_never_decreases (d : bool) (new_text old_text : Py.str)
    (l : list nat) :
  pres (fun g g' => count g <= count g')
       (for_each l (fun para =>
          at_para para (process_paragraph d new_text old_text))).
Proof.
  apply pres_for_each; [intro; lia | intros; lia | intro para].
  apply pres_at_para; [intro; lia|].
  apply pres_process_paragraph.
  - intro; lia.
  - intros; lia.
  - intro g. simpl. lia.
  - intros msg g. destruct d; simpl; lia.
Qed.

(** C9, as the code has it: the replace call has no exception handler. It
    visits the paragraphs of [walk doc] in order. When none of them
    raises, it returns [count], which is not negative. When processing a
    paragraph raises, that exception leaves the call in the state the
    paragraph's processing reached: the paragraphs before it have been
    processed and the ones after it have not. *)
Theorem replace_returns_count_or_propagates
    (env : option Py.str) (doc : Document) (old_text new_text : Py.str)
    (w : world) :
  let d := Py.eqb (getenv env (py "0")) (py "1") in
  let body := fun para => at_para para (process_paragraph d new_text old_text) in
  let w0 := (fst w, mk_glob 0 (stdout (snd w))) in
  match find_and_replace_text_preserve_formatting env doc old_text new_text w with
  | (w', Ok n) =>
    0 <= n /\ n = count (snd w')
    /\ exists w1, for_each (walk doc) body w0 = (w1, Ok tt) /\ fst w' = fst w1
  | (w', Raise e) =>
    exists done para rest w1,
      walk doc = done ++ para :: rest
      /\ for_each done body w0 = (w1, Ok tt)
      /\ body para w1 = (w', Raise e)
  end.
Proof.
  intros d body w0. rewrite replace_call_walk. fold d. fold body. fold w0.
  pose proof (for_each_outcome (walk doc) body w0) as O.
  pose proof (count_never_decreases d new_text old_text (walk doc) w0) as M.
  fold body in M. unfold bind.
  destruct (for_each (walk doc) body w0) as [w1 [[]|e]].
  - simpl in M. unfold get_count, gets, _dbg.
    destruct d; simpl; (split; [exact M | split; [reflexivity|]]);
      exists w1; now split.
  - exact O.
Qed.

(** The input that refutes C9 as stated. The first paragraph holds its
    text in a run inside a hyperlink, with two matches in that run; the
    second paragraph holds the search text in a direct run. The XML path
    replaces the run for the right match, meets it again for the left
    one, now without a parent, and [getparent().remove] raises. The call
    raises, and the second paragraph is left unprocessed. *)
Lemma xml_path_raises_and_skips_the_rest :
  let ps := [load None [Box w_hyperlink [plain "abab"]]; load None [plain "ab"]] in
  let r := replace_all (py "ab") (py "X") ps in
  snd r = Raise AttributeError
  /\ nth_error (fst (fst r)) 1 = nth_error ps 1.
Proof. vm_compute. split; reflexivity. Qed.

(** ** Where the code departs from the specification *)

(** C1, at the input where the code breaks it. The paragraph has the runs
    "a", "a", "a", "a", "z" and the search text is "aaa": the matches are
    [(0,3)] and [(1,4)], and the run "z", at [(4,5)], overlaps neither.
    The match [(1,4)] replaces three runs by one; the run map is not
    rebuilt, so for [(0,3)] the stale indices 0..2 now reach "z", which
    is removed with the match. *)
Theorem overlapping_matches_remove_an_outside_run :
  let p := load None [plain "a"; plain "a"; plain "a"; plain "a"; plain "z"] in
  let r := replace_all (py "aaa") (py "b") [p] in
  all_matches (py "aaaaz") (py "aaa") = [(0, 3); (1, 4)]
  /\ snd (build_run_map (r_lst (kids p)) 0 [] [] (p, initial))
     = Ok (py "aaaaz", [(0, 1, 0); (1, 2, 1); (2, 3, 2); (3, 4, 3); (4, 5, 4)])
  /\ snd r = Ok 2
  /\ map view (fst (fst r)) = [[plain "b"]].
Proof. vm_compute. repeat split; reflexivity. Qed.

(** C2, at the input where the code breaks it. The run text is
    "a<TAB>b" and the split index 2. The pair returned is the one of the
    claim, but the text of the two runs is "a<TAB>" and "b<TAB>": the
    truncated run holds the tab as a [w:tab] element, the clone is a copy
    of the truncated run, and [clone_run_with_text] only rewrites [w:t]
    elements. *)
Theorem split_run_at_copies_the_tab :
  let T := py "a" ++ [TAB] ++ py "b" in
  let p := load None [Run (text_run None T)] in
  let r := split_run_at 0%nat 2 (p, initial) in
  snd r = Ok (Py.slice_to T 2, Py.slice_from T 2)
  /\ run_texts (fst (fst r)) = [py "a" ++ [TAB]; py "b" ++ [TAB]]
  /\ concat (run_texts (fst (fst r))) <> T.
Proof. vm_compute. repeat split; [reflexivity.. | discriminate]. Qed.

(** C3, at the input where the code breaks it. With the empty
    replacement text no replacement run is made, and the runs of the
    match are removed only under [if replacement_runs and ...]: the
    paragraph keeps its text (the standard path has split the run at the
    match) and the match is counted all the same. Both paths do so. *)
Theorem empty_replacement_removes_nothing :
  let direct := load None [plain "hello world"] in
  let nested := load None [Box w_hyperlink [plain "hello world"]] in
  let r1 := replace_all (py "world") (py "") [direct] in
  let r2 := replace_all (py "world") (py "") [nested] in
  snd r1 = Ok 1
  /\ map view (fst (fst r1)) = [[plain "hello "; plain "world"]]
  /\ snd r2 = Ok 1
  /\ map view (fst (fst r2)) = [[Box w_hyperlink [plain "hello world"]]].
Proof. vm_compute. repeat split; reflexivity. Qed.

(** C4, at the input where the code breaks it. The run "wo<ZWSP>rd" does
    match the search text "word", at [(0,4)] of the normalised text. The
    end of the match is then used as an offset into the raw text of the
    run, which is one character longer: the run is split into
    "wo<ZWSP>r" and "d", only the first is replaced, and "d" stays. *)
Theorem zero_width_space_leaves_a_residue :
  let p := load None [Run (text_run None (py "wo" ++ [ZWSP] ++ py "rd"))] in
  let r := replace_all (py "word") (py "X") [p] in
  snd r = Ok 1
  /\ map view (fst (fst r)) = [[plain "X"; plain "d"]].
Proof. vm_compute. repeat split; reflexivity. Qed.

Lemma find_matches_extends (fuel : nat) (full_text old : Py.str) :
  forall start acc r,
    find_matches fuel full_text old start acc = Some r ->
    exists r', r = acc ++ r'.
Proof.
  induction fuel as [|fuel IH]; intros start acc r H; [discriminate|].
  simpl in H. destruct (Py.find full_text old start =? -1).
  - injection H as <-. exists []. now rewrite app_nil_r.
  - destruct (IH _ _ _ H) as [r' ->]. rewrite <- app_assoc. eauto.
Qed.

(** C7, at the input where the code breaks it. For the empty needle
    [find] answers at every position up to the end of the haystack: the
    locator returns a zero-width span for each of them, not the empty
    sequence, whenever the haystack is not empty, the one case that
    [process_paragraph_standard] guards. A zero-width span inside a run
    is then processed as a match: for the run "ab" the call splits off
    "b", replaces it by the replacement text and reports one
    replacement. *)
Theorem empty_needle_is_found_everywhere :
  (forall c s, exists rest, all_matches (c :: s) [] = (0, 0) :: rest)
  /\ all_matches (py "ab") (py "") = [(0, 0); (1, 1); (2, 2)]
  /\ let r := replace_all (py "") (py "X") [load None [plain "ab"]] in
     snd r = Ok 1 /\ map view (fst (fst r)) = [[plain "a"; plain "X"]].
Proof.
  split; [|vm_compute; repeat split; reflexivity].
  intros c s. unfold all_matches.
  destruct (locate_total (c :: s) []) as [m Hm]. rewrite Hm.
  unfold locate in Hm.
  replace (List.length (c :: s) + 2)%nat with (S (List.length (c :: s) + 1))
    in Hm by lia.
  cbn [find_matches] in Hm.
  assert (F : Py.find (c :: s) [] 0 = 0).
  { unfold Py.find. change (Z.max 0 0) with 0.
    destruct (Py.len (c :: s) <? 0) eqn:E.
    - apply Z.ltb_lt in E. unfold Py.len in E. lia.
    - reflexivity. }
  rewrite F in Hm. cbn [Z.eqb] in Hm.
  apply find_matches_extends in Hm. destruct Hm as [r' ->].
  now exists r'.
Qed.

(** ** The three matches of "ababab" *)






(** Witness of C6: a table-of-contents paragraph that holds the search
    text, before a body paragraph that holds it too. *)
Lemma toc_paragraph_with_the_search_text :
  let toc := load (Some (py "TOC 1")) [plain "about"] in
  let ps := [toc; load (Some (py "Normal")) [plain "about"]] in
  let r1 := find_and_replace_text_preserve_formatting None (body_of ps)
              (py "ab") (py "X") (ps, initial) in
  let r2 := find_and_replace_text (body_of ps) (py "ab") (py "X") (ps, initial) in
  is_toc toc = true
  /\ nth_error (fst (fst r1)) 0 = Some toc
  /\ nth_error (fst (fst r2)) 0 = Some toc.
Proof.
  intros toc ps r1 r2. split; [reflexivity|].
  apply (toc_paragraph_is_never_modified None (body_of ps) (py "ab") (py "X")
           (ps, initial) 0 eq_refl eq_refl).
Defined.

(** ** The splitter on text without tabs and line breaks *)

Lemma append_to_run_from_text_no_break (text : Py.str) :
  forall bfr,
    no_break text = true ->
    append_to_run_from_text bfr text = flush (bfr ++ text).
Proof.
  induction text as [|c text IH]; intros bfr H; simpl.
  - now rewrite app_nil_r.
  - simpl in H. apply andb_true_iff in H. destruct H as [Hc Ht].
    unfold is_break in Hc. apply negb_true_iff in Hc.
    apply orb_false_iff in Hc. destruct Hc as [Hc1 Hc2].
    apply orb_false_iff in Hc1. destruct Hc1 as [Htab Hcr].
    rewrite Htab, Hcr, Hc2. simpl.
    rewrite (IH _ Ht), <- app_assoc. reflexivity.
Qed.

Lemma set_text_then_text (e : CT_R) (text : Py.str) :
  no_break text = true -> CT_R_text (CT_R_set_text e text) = text.
Proof.
  intro H. unfold CT_R_text, CT_R_set_text. simpl.
  rewrite append_to_run_from_text_no_break by exact H.
  destruct text; simpl; [reflexivity | now rewrite app_nil_r].
Qed.

Lemma clone_of_set_text (e : CT_R) (text text' : Py.str) :
  no_break text = true -> text <> [] ->
  CT_R_text (with_text (CT_R_set_text e text) text') = text'.
Proof.
  intros H Hne. unfold CT_R_text, with_text, CT_R_set_text. simpl.
  rewrite append_to_run_from_text_no_break by exact H.
  destruct text; [contradiction|]. simpl. now rewrite app_nil_r.
Qed.

(** The pair that [split_run_at] returns is [(T[:k], T[k:])] for every run
    and every offset within its text. *)
Lemma split_run_at_returns_the_parts
    (p : CT_P) (g : globals) (run : ref) (e : CT_R) (k : Z) :
  nth_error (elems p) run = Some e ->
  0 <= k <= Py.len (CT_R_text e) ->
  snd (split_run_at run k (p, g))
  = Ok (Py.slice_to (CT_R_text e) k, Py.slice_from (CT_R_text e) k).
Proof.
  destruct p as [sty ks es]. cbn [elems]. intros He Hk.
  unfold split_run_at.
  cbv [bind Run_text get_elem get_para gets of_option ret fst snd elems].
  rewrite He. cbv beta iota.
  unfold Py.slice_to, Py.slice_from, Py.clip.
  replace (k <? 0) with false by (symmetry; apply Z.ltb_ge; lia).
  destruct (k <=? 0) eqn:E1.
  { apply Z.leb_le in E1. assert (k = 0) as -> by lia.
    rewrite Z.min_l by (unfold Py.len; lia). reflexivity. }
  destruct (k >=? Py.len (CT_R_text e)) eqn:E2.
  { rewrite Z.geb_leb in E2. apply Z.leb_le in E2.
    rewrite Z.min_r by lia. unfold Py.len. rewrite Nat2Z.id.
    now rewrite firstn_all, skipn_all. }
  cbv [bind Run_set_text get_elem get_para gets of_option ret set_elem
       set_para modify clone_run_with_text new_elem addnext set_kids
       fst snd elems kids style].
  rewrite He. cbv beta iota.
  rewrite (nth_error_update_same _ _ _ He). cbv beta iota.
  destruct (splice_kids run _ ks); reflexivity.
Qed.

(** Split conservation where it holds: when the left part has no tab,
    line feed or carriage return, the run of a one-run paragraph is split
    into two runs whose texts are the two parts. *)
Lemma split_run_at_conserves_text_without_breaks
    (sty : option Py.str) (e : CT_R) (k : Z) (g : globals) :
  let T := CT_R_text e in
  0 < k < Py.len T ->
  no_break (Py.slice_to T k) = true ->
  let r := split_run_at 0%nat k (load sty [Run e], g) in
  snd r = Ok (Py.slice_to T k, Py.slice_from T k)
  /\ run_texts (fst (fst r)) = [Py.slice_to T k; Py.slice_from T k]
  /\ concat (run_texts (fst (fst r))) = T.
Proof.
  intros T Hk Hplain r.
  assert (Hleft : Py.slice_to T k <> []).
  { unfold Py.slice_to, Py.clip. replace (k <? 0) with false by (symmetry; apply Z.ltb_ge; lia).
    intro E. apply (f_equal (@List.length _)) in E. rewrite length_firstn in E.
    unfold Py.len in *. simpl in E. lia. }
  assert (E : split_run_at 0%nat k (load sty [Run e], g)
              = ((mk_p sty [E_r 0%nat; E_r 1%nat]
                    [CT_R_set_text e (Py.slice_to T k);
                     with_text (CT_R_set_text e (Py.slice_to T k))
                               (Py.slice_from T k)], g),
                 Ok (Py.slice_to T k, Py.slice_from T k))).
  { subst T. change (load sty [Run e]) with (mk_p sty [E_r 0%nat] [e]).
    unfold split_run_at.
    cbv [bind Run_text get_elem get_para gets of_option ret fst snd elems
         nth_error].
    replace (k <=? 0) with false by (symmetry; apply Z.leb_gt; lia).
    replace (k >=? Py.len (CT_R_text e)) with false
      by (symmetry; rewrite Z.geb_leb; apply Z.leb_gt; lia).
    cbv [bind Run_set_text get_elem get_para gets of_option ret set_elem
         set_para modify clone_run_with_text new_elem addnext set_kids
         splice_kids splice option_map
         fst snd elems kids style update nth_error app Nat.eqb List.length].
    reflexivity. }
  assert (R : snd r = Ok (Py.slice_to T k, Py.slice_from T k)
              /\ run_texts (fst (fst r)) = [Py.slice_to T k; Py.slice_from T k]).
  { subst r. rewrite E. split; [reflexivity|].
    cbv [run_texts fst snd kids elems r_lst flat_map nth_error app].
    now rewrite set_text_then_text, clone_of_set_text. }
  destruct R as [R1 R2]. repeat split; [exact R1 | exact R2|].
  rewrite R2. simpl. rewrite app_nil_r.
  unfold Py.slice_to, Py.slice_from. apply firstn_skipn.
Qed.

(** ** Debug output *)

(** X19: with the debug variable unset, or set to anything but '1', the
    replace call prints nothing. *)
Lemma nothing_printed_without_debug
    (env : option Py.str) (doc : Document) (old_text new_text : Py.str)
    (w : world) :
  Py.eqb (getenv env (py "0")) (py "1") = false ->
  stdout (snd (fst (find_and_replace_text_preserve_formatting env doc
                      old_text new_text w)))
  = stdout (snd w).
Proof.
  intro H. rewrite replace_call_walk. rewrite H.
  set (body := fun para => at_para para (process_paragraph false new_text old_text)).
  set (w0 := (fst w, mk_glob 0 (stdout (snd w)))).
  assert (P : pres (fun g g' => stdout g' = stdout g) (for_each (walk doc) body)).
  { apply pres_for_each; [reflexivity | intros; congruence | intro para].
    apply pres_at_para; [reflexivity|].
    apply pres_process_paragraph; try reflexivity. intros; congruence. }
  specialize (P w0). unfold bind.
  destruct (for_each (walk doc) body w0) as [w1 [[]|e]]; exact P.
Qed.

(** * More of the code *)

(** ** More on the text normaliser *)

(** X1: the normalised text holds none of the five invisible characters
    and no no-break space, and is never longer than the text. *)
Theorem normalize_text_for_search_output (s : Py.str) :
  forallb clean (normalize_text_for_search s) = true
  /\ (List.length (normalize_text_for_search s) <= List.length s)%nat.
Proof.
  rewrite normalize_text_for_search_spec.
  induction s as [|x s [IH1 IH2]]; [now split|].
  cbn [filter]. destruct (invisible x) eqn:E; cbn [negb].
  - split; [exact IH1 | cbn [List.length]; lia].
  - cbn [map forallb List.length]. rewrite IH1. split; [|lia].
    rewrite andb_true_r. unfold clean. rewrite (unbreak_visible _ E).
    unfold unbreak. destruct (N.eqb x NBSP) eqn:N; [reflexivity|].
    now rewrite N.
Qed.

(** X2: a text without those characters is its own normalisation. *)
Theorem normalize_text_for_search_clean (s : Py.str) :
  forallb clean s = true -> normalize_text_for_search s = s.
Proof.
  rewrite normalize_text_for_search_spec.
  induction s as [|x s IH]; [reflexivity|].
  cbn [forallb]. intro H. apply andb_true_iff in H. destruct H as [Hx Hs].
  unfold clean in Hx. apply andb_true_iff in Hx. destruct Hx as [H1 H2].
  cbn [filter]. rewrite H1. cbn [map]. rewrite (IH Hs).
  unfold unbreak. apply negb_true_iff in H2. now rewrite H2.
Qed.

Lemma normalize_clean_witness :
  forallb clean (py "Hello world") = true
  /\ normalize_text_for_search (py "Hello world") = py "Hello world".
Proof.
  split; [reflexivity|].
  apply (normalize_text_for_search_clean (py "Hello world")). reflexivity.
Defined.

(** X3: normalising run by run is normalising the whole text: the
    normaliser distributes over concatenation. *)
Theorem normalize_text_for_search_app (a b : Py.str) :
  normalize_text_for_search (a ++ b)
  = normalize_text_for_search a ++ normalize_text_for_search b.
Proof.
  rewrite !normalize_text_for_search_spec.
  now rewrite filter_app, map_app.
Qed.

(** ** The match locator, in full *)

Lemma find_at_first (sub s : Py.str) :
  forall pos,
    Py.find_at sub s pos <> -1 ->
    exists n,
      Py.find_at sub s pos = pos + Z.of_nat n
      /\ (n <= List.length s)%nat
      /\ Py.startswith (skipn n s) sub = true
      /\ forall m, (m < n)%nat -> Py.startswith (skipn m s) sub = false.
Proof.
  induction s as [|c s IH]; intros pos H; cbn [Py.find_at] in *.
  - destruct (Py.startswith [] sub) eqn:E; [|contradiction].
    exists 0%nat. repeat split; [lia | simpl; lia | exact E | intros; lia].
  - destruct (Py.startswith (c :: s) sub) eqn:E.
    + exists 0%nat. repeat split; [lia | simpl; lia | exact E | intros; lia].
    + destruct (IH _ H) as (n & H1 & H2 & H3 & H4).
      exists (S n). repeat split; [lia | simpl; lia | exact H3 |].
      intros [|m] Hm; [exact E | apply H4; lia].
Qed.

Lemma filter_none {A} (f : A -> bool) (l : list A) :
  (forall x, In x l -> f x = false) -> filter f l = [].
Proof.
  induction l as [|a l IH]; intro H; [reflexivity|].
  cbn [filter]. rewrite (H a) by now left. apply IH. intros; apply H. now right.
Qed.

Lemma find_matches_spec (full old : Py.str) (fuel : nat) :
  forall (n : nat) (acc : list (Z * Z)),
    (n <= List.length full + 1)%nat ->
    (List.length full + 2 - n <= fuel)%nat ->
    find_matches fuel full old (Z.of_nat n) acc
    = Some (acc ++ map (span_at old)
                       (filter (occurs_at full old)
                               (seq n (List.length full + 1 - n)))).
Proof.
  induction fuel as [|fuel IH]; intros n acc Hn Hf; [lia|].
  cbn [find_matches]. unfold Py.find.
  rewrite Z.max_r by lia. rewrite Nat2Z.id.
  destruct (Py.len full <? Z.of_nat n) eqn:E.
  - apply Z.ltb_lt in E. unfold Py.len in E.
    replace (List.length full + 1 - n)%nat with 0%nat by lia.
    cbn. now rewrite app_nil_r.
  - apply Z.ltb_ge in E. unfold Py.len in E.
    destruct (Py.find_at old (skipn n full) (Z.of_nat n) =? -1) eqn:F.
    + apply Z.eqb_eq in F. rewrite find_at_none in F by lia.
      rewrite filter_none; [cbn; now rewrite app_nil_r|].
      intros i Hi. apply in_seq in Hi. unfold occurs_at.
      replace i with ((i - n) + n)%nat by lia.
      rewrite <- skipn_skipn. apply F.
    + apply Z.eqb_neq in F.
      destruct (find_at_first _ _ _ F) as (k & H1 & H2 & H3 & H4).
      rewrite length_skipn in H2. rewrite H1.
      replace (Z.of_nat n + Z.of_nat k + 1) with (Z.of_nat (n + k + 1)) by lia.
      rewrite IH by lia. f_equal. rewrite <- app_assoc. f_equal.
      replace (List.length full + 1 - n)%nat
        with (k + S (List.length full + 1 - (n + k + 1)))%nat by lia.
      assert (O : occurs_at full old (n + k) = true).
      { unfold occurs_at. replace (n + k)%nat with (k + n)%nat by lia.
        now rewrite <- skipn_skipn. }
      rewrite seq_app, filter_app. cbn [seq filter]. rewrite O.
      rewrite (filter_none (occurs_at full old) (seq n k)).
      * cbn [map app]. unfold span_at at 2. rewrite Nat2Z.inj_add.
        replace (S (n + k)) with (n + k + 1)%nat by lia.
        reflexivity.
      * intros i Hi. apply in_seq in Hi. unfold occurs_at.
        replace i with ((i - n) + n)%nat by lia.
        rewrite <- skipn_skipn. apply H4. lia.
Qed.

(** X4: the match locator ends and returns, in increasing order, the
    span [(i, i + len(needle))] of every position [i] from 0 to
    [len(haystack)] at which the needle occurs, the occurrences that
    overlap an earlier one included. *)
Theorem locate_all_occurrences (full old : Py.str) :
  locate full old = Some (map (span_at old) (occurrences full old)).
Proof.
  unfold locate, occurrences. change 0 with (Z.of_nat 0).
  rewrite (@find_matches_spec full old (List.length full + 2)%nat 0%nat [])
    by lia.
  now rewrite Nat.sub_0_r.
Qed.

Lemma occurs_at_iff (full old : Py.str) (i : nat) :
  (i <= List.length full)%nat /\ occurs_at full old i = true
  <-> exists pre post, full = pre ++ old ++ post /\ List.length pre = i.
Proof.
  unfold occurs_at. split.
  - intros [Hi H]. apply startswith_iff in H. destruct H as [post H].
    exists (firstn i full), post. split.
    + now rewrite <- H, firstn_skipn.
    + rewrite length_firstn. lia.
  - intros (pre & post & -> & <-). split.
    + rewrite length_app. lia.
    + rewrite skipn_app, skipn_all, Nat.sub_diag. cbn [skipn app].
      apply startswith_iff. now exists post.
Qed.

(** ** The run index of the standard path *)

Lemma len_app {A} (a b : list A) : Py.len (a ++ b) = Py.len a + Py.len b.
Proof. unfold Py.len. rewrite length_app. lia. Qed.

Lemma normalize_concat (texts : list Py.str) :
  normalize_text_for_search (concat texts)
  = concat (map normalize_text_for_search texts).
Proof.
  induction texts as [|t ts IH]; [reflexivity|].
  cbn [concat map]. rewrite <- IH, !normalize_text_for_search_spec.
  now rewrite filter_app, map_app.
Qed.

Lemma r_lst_in_all (ks : list elem) (r : ref) :
  In r (r_lst ks) -> In r (flat_map find_all_runs ks).
Proof.
  unfold r_lst. rewrite !in_flat_map. intros [k [Hk Hr]].
  exists k. split; [exact Hk|]. destruct k; [exact Hr | destruct Hr].
Qed.

Lemma valid_refs_direct (p : CT_P) (r : ref) :
  valid_refs p = true -> In r (r_lst (kids p)) ->
  exists c, nth_error (elems p) r = Some c.
Proof.
  unfold valid_refs. rewrite forallb_forall. intros H Hr.
  specialize (H r (@r_lst_in_all _ _ Hr)). apply Nat.ltb_lt in H.
  destruct (nth_error (elems p) r) as [c|] eqn:E; [now exists c|].
  apply nth_error_None in E. lia.
Qed.

Lemma Run_text_valid (p : CT_P) (g : globals) (r : ref) (c : CT_R) :
  nth_error (elems p) r = Some c ->
  Run_text r (p, g) = ((p, g), Ok (CT_R_text c)).
Proof.
  intro H. unfold Run_text, get_elem, get_para, bind, gets, of_option.
  cbn [fst]. now rewrite H.
Qed.

Lemma build_run_map_pure (p : CT_P) (g : globals) (rs : list ref) :
  forall idx full rm,
    (forall r, In r rs -> exists c, nth_error (elems p) r = Some c) ->
    build_run_map rs idx full rm (p, g)
    = ((p, g),
       Ok (full ++ concat (map normalize_text_for_search (texts_of p rs)),
           rm ++ spans_from (Py.len full) idx
                   (map normalize_text_for_search (texts_of p rs)))).
Proof.
  induction rs as [|r rs IH]; intros idx full rm H.
  - cbn. now rewrite !app_nil_r.
  - destruct (H r (or_introl eq_refl)) as [c Hc].
    cbn [build_run_map]. unfold bind at 1. rewrite (@Run_text_valid p g r c Hc).
    rewrite IH by (intros; apply H; now right).
    unfold texts_of at 3 4. cbn [flat_map]. rewrite Hc.
    fold (texts_of p rs). cbn [app map concat spans_from].
    rewrite len_app, <- !app_assoc.
    destruct (Py.len full + Py.len (normalize_text_for_search (CT_R_text c))
              >? Py.len full); now rewrite <- ?app_assoc.
Qed.

Lemma spans_from_tiles (texts : list Py.str) :
  forall start idx,
    tiles start (start + Py.len (concat texts)) (spans_from start idx texts).
Proof.
  induction texts as [|t ts IH]; intros start idx.
  - cbn. unfold Py.len. simpl. lia.
  - cbn [spans_from concat]. rewrite len_app.
    destruct (start + Py.len t >? start) eqn:E.
    + cbn [app tiles]. apply Z.gtb_lt in E. repeat split; [lia|].
      rewrite Z.add_assoc. apply IH.
    + cbn [app]. rewrite Z.gtb_ltb in E. apply Z.ltb_ge in E.
      assert (Py.len t = 0) as -> by (unfold Py.len in *; lia).
      rewrite !Z.add_0_r. apply IH.
Qed.

Lemma spans_from_in (texts : list Py.str) :
  forall start idx s e i,
    In (s, e, i) (spans_from start idx texts)
    <-> exists j t,
          nth_error texts j = Some t /\ t <> []
          /\ i = idx + Z.of_nat j
          /\ s = start + Py.len (concat (firstn j texts))
          /\ e = s + Py.len t.
Proof.
  induction texts as [|t ts IH]; intros start idx s e i.
  - cbn. split; [intros [] | intros (j & t & H & _)]. now destruct j.
  - cbn [spans_from]. rewrite in_app_iff, IH. split.
    + intros [H | (j & t' & H1 & H2 & H3 & H4 & H5)].
      * destruct (start + Py.len t >? start) eqn:E; [|destruct H].
        destruct H as [H | []]. injection H as <- <- <-.
        exists 0%nat, t. cbn. repeat split; try lia.
        apply Z.gtb_lt in E. intros ->. unfold Py.len in E. simpl in E. lia.
      * exists (S j), t'. cbn [nth_error firstn concat].
        rewrite len_app. repeat split; auto; lia.
    + intros (j & t' & H1 & H2 & H3 & H4 & H5). destruct j as [|j].
      * left. cbn in H1, H4. injection H1 as ->.
        assert (0 < Py.len t').
        { destruct t'; [contradiction|]. unfold Py.len. simpl. lia. }
        replace (start + Py.len t' >? start) with true
          by (symmetry; apply Z.gtb_lt; lia).
        left. f_equal; [f_equal|]; unfold Py.len in *; simpl in *; lia.
      * right. exists j, t'. cbn [nth_error firstn concat] in *.
        rewrite len_app in H4. repeat split; auto; lia.
Qed.

Lemma run_texts_texts_of (p : CT_P) : run_texts p = texts_of p (r_lst (kids p)).
Proof. reflexivity. Qed.

(** X5: the run index of the standard path. For a paragraph whose run
    references are valid, building the index raises nothing and changes
    nothing; the flattened text is the normalised text of the direct
    runs; the spans tile it from 0 to its length, each non-empty, in run
    order; and run [j] has a span exactly when its normalised text is not
    empty, the span of that text in the flattened text. *)
Theorem build_run_map_index (p : CT_P) (g : globals) :
  valid_refs p = true ->
  exists run_map,
    build_run_map (r_lst (kids p)) 0 [] [] (p, g)
    = ((p, g), Ok (flattened p, run_map))
    /\ tiles 0 (Py.len (flattened p)) run_map
    /\ forall s e i,
         In (s, e, i) run_map
         <-> exists j t,
               nth_error (run_texts p) j = Some t
               /\ normalize_text_for_search t <> []
               /\ i = Z.of_nat j
               /\ s = Py.len (normalize_text_for_search
                                (concat (firstn j (run_texts p))))
               /\ e = s + Py.len (normalize_text_for_search t).
Proof.
  intro V.
  exists (spans_from 0 0 (map normalize_text_for_search (run_texts p))).
  split; [|split].
  - rewrite build_run_map_pure by (intros; now apply valid_refs_direct).
    unfold flattened. now rewrite normalize_concat.
  - unfold flattened. rewrite normalize_concat. apply (spans_from_tiles _ 0 0).
  - intros s e i. rewrite spans_from_in. split.
    + intros (j & t & H1 & H2 & H3 & H4 & H5).
      rewrite nth_error_map in H1.
      destruct (nth_error (run_texts p) j) as [t0|] eqn:E; [|discriminate].
      injection H1 as <-. exists j, t0.
      rewrite normalize_concat, <- firstn_map. repeat split; auto; lia.
    + intros (j & t & H1 & H2 & H3 & H4 & H5).
      exists j, (normalize_text_for_search t).
      rewrite nth_error_map, H1, firstn_map, <- normalize_concat.
      repeat split; auto; lia.
Qed.

(** ** A search text that is not there *)

Lemma xml_run_map_loop_pure (p : CT_P) (g : globals) (rs : list ref) :
  forall full rm,
    (forall r, In r rs -> exists c, nth_error (elems p) r = Some c) ->
    exists rm',
      xml_run_map_loop rs full rm (p, g)
      = ((p, g),
         Ok (full ++ concat (map (fun c => normalize_text_for_search (xml_run_text c))
                                 (flat_map (fun r => match nth_error (elems p) r with
                                                     | Some c => [c]
                                                     | None => []
                                                     end) rs)),
             rm')).
Proof.
  induction rs as [|r rs IH]; intros full rm H.
  - exists rm. cbn. now rewrite app_nil_r.
  - destruct (H r (or_introl eq_refl)) as [c Hc].
    cbn [xml_run_map_loop flat_map]. rewrite Hc. cbn [app map concat].
    unfold bind at 1. unfold get_elem, get_para, bind, gets, of_option.
    cbn [fst]. rewrite Hc. cbn [ret].
    destruct (Py.truthy (xml_run_text c)) eqn:T.
    + destruct (IH (full ++ normalize_text_for_search (xml_run_text c))
                   (rm ++ [(Py.len full,
                            Py.len (full ++ normalize_text_for_search (xml_run_text c)),
                            r)])) as [rm' E]; [intros; apply H; now right|].
      exists rm'. rewrite E. now rewrite <- app_assoc.
    + destruct (IH full rm) as [rm' E]; [intros; apply H; now right|].
      exists rm'. rewrite E. destruct (xml_run_text c); [reflexivity | discriminate].
Qed.

Lemma valid_refs_all (p : CT_P) (r : ref) :
  valid_refs p = true -> In r (flat_map find_all_runs (kids p)) ->
  exists c, nth_error (elems p) r = Some c.
Proof.
  unfold valid_refs. rewrite forallb_forall. intros H Hr.
  specialize (H r Hr). apply Nat.ltb_lt in H.
  destruct (nth_error (elems p) r) as [c|] eqn:E; [now exists c|].
  apply nth_error_None in E. lia.
Qed.

Lemma dbg_run (d : bool) (msg : Py.str) {X} (x : X) (g : globals) :
  exists out, _dbg d msg (x, g) = ((x, mk_glob (count g) out), Ok tt).
Proof.
  unfold _dbg. destruct d.
  - eexists. reflexivity.
  - exists (stdout g). now destruct g.
Qed.

Lemma process_paragraph_not_found (d : bool) (new_text old_text : Py.str)
    (p : CT_P) (g : globals) :
  valid_refs p = true ->
  is_toc p = true \/ not_found old_text p = true ->
  exists out,
    process_paragraph d new_text old_text (p, g)
    = ((p, mk_glob (count g) out), Ok tt).
Proof.
  intros V [T | N].
  - rewrite process_paragraph_toc by exact T. exists (stdout g). now destruct g.
  - unfold not_found in N. apply andb_true_iff in N. destruct N as [N1 N2].
    apply negb_true_iff in N1, N2.
    unfold process_paragraph. unfold bind at 1. unfold get_para at 1, gets.
    cbn [fst]. destruct (is_toc p); [exists (stdout g); now destruct g|].
    unfold bind at 1. unfold runs, gets. cbn [fst].
    unfold bind at 1.
    rewrite build_run_map_pure by (intros; now apply valid_refs_direct).
    cbn [app]. rewrite <- run_texts_texts_of, <- normalize_concat.
    fold (flattened p). rewrite N1.
    destruct (dbg_run d
                (py "Standard path: no match or no direct runs; trying XML fallback")
                p g) as [o1 E1].
    unfold bind at 1. rewrite E1.
    unfold bind at 1. unfold build_xml_run_map. unfold bind at 1.
    unfold get_para, gets. cbn [fst].
    destruct (@xml_run_map_loop_pure p (mk_glob (count g) o1)
                (flat_map find_all_runs (kids p)) [] [])
      as [rm' E]; [intros; now apply valid_refs_all|].
    cbn [app] in E. fold (xml_flattened p) in E. rewrite E, N2.
    destruct (dbg_run d (py "XML fallback: no match in this paragraph")
                p (mk_glob (count g) o1)) as [o2 E2].
    rewrite E2. now exists o2.
Qed.

Lemma update_same {A} (l : list A) (i : nat) (x : A) :
  nth_error l i = Some x -> update l i x = l.
Proof.
  revert i. induction l as [|a l IH]; intros [|i] H; simpl in *;
    try discriminate; [now injection H as -> | now rewrite IH].
Qed.

Lemma for_each_not_found (d : bool) (new_text old_text : Py.str)
    (ps : list CT_P) (l : list nat) :
  Forall (fun i => exists p, nth_error ps i = Some p
                             /\ valid_refs p = true
                             /\ (is_toc p = true \/ not_found old_text p = true)) l ->
  forall g, exists out,
    for_each l (fun para => at_para para (process_paragraph d new_text old_text))
             (ps, g)
    = ((ps, mk_glob (count g) out), Ok tt).
Proof.
  induction 1 as [|i l (p & Hp & V & N) _ IH]; intro g.
  - exists (stdout g). now destruct g.
  - cbn [for_each]. unfold bind. unfold at_para at 1. cbn [fst snd]. rewrite Hp.
    destruct (@process_paragraph_not_found d new_text old_text p g V N) as [out E].
    rewrite E. rewrite (@update_same _ ps i p Hp).
    destruct (IH (mk_glob (count g) out)) as [out' E']. cbn [count] in E'.
    rewrite E'.
    now exists out'.
Qed.

(** X6: when the search text is found in no paragraph that the call
    visits (each is a table-of-contents paragraph or holds the search
    text in neither of its two flattened texts), the call returns 0 and
    every paragraph object is as it was. *)
Theorem nothing_found_nothing_changed
    (env : option Py.str) (doc : Document) (old_text new_text : Py.str)
    (w : world) :
  Forall (fun i => exists p, nth_error (fst w) i = Some p
                             /\ valid_refs p = true
                             /\ (is_toc p = true \/ not_found old_text p = true))
         (walk doc) ->
  let r := find_and_replace_text_preserve_formatting env doc old_text new_text w in
  snd r = Ok 0 /\ fst (fst r) = fst w.
Proof.
  intros H r. subst r. rewrite replace_call_walk.
  destruct w as [ps g]. cbn [fst snd] in *.
  destruct (@for_each_not_found (Py.eqb (getenv env (py "0")) (py "1"))
              new_text old_text ps (walk doc) H (mk_glob 0 (stdout g)))
    as [out E].
  unfold bind. rewrite E. unfold get_count, gets, _dbg, print, modify, ret.
  cbn [fst snd count].
  destruct (Py.eqb _ _); now split.
Qed.

(** ** The plain replace operation *)

Lemma kept_refl (old_text : Py.str) (p : CT_P) : kept old_text p p.
Proof. repeat split; auto. Qed.

Lemma kept_trans (old_text : Py.str) (p q r : CT_P) :
  kept old_text p q -> kept old_text q r -> kept old_text p r.
Proof.
  intros (A1 & A2 & A3 & A4) (B1 & B2 & B3 & B4).
  repeat split; try congruence. intros x c H1 H2. apply B4; auto.
Qed.

Lemma kept_valid (old_text : Py.str) (p q : CT_P) :
  kept old_text p q -> valid_refs p = true -> valid_refs q = true.
Proof.
  intros (_ & A2 & A3 & _). unfold valid_refs. rewrite A2.
  apply (f_equal (@List.length _)) in A3. rewrite !length_map in A3.
  now rewrite A3.
Qed.

Lemma length_update {A} (l : list A) (i : nat) (x : A) :
  List.length (update l i x) = List.length l.
Proof.
  revert i. induction l as [|a l IH]; intros [|i]; simpl; auto.
Qed.

Lemma map_update {A B} (f : A -> B) (l : list A) (i : nat) (x y : A) :
  nth_error l i = Some y -> f x = f y -> map f (update l i x) = map f l.
Proof.
  revert i. induction l as [|a l IH]; intros [|i] H E; simpl in *;
    try discriminate.
  - injection H as ->. now rewrite E.
  - now rewrite (IH i H E).
Qed.

Lemma map_m_Run_text_valid (p : CT_P) (g : globals) (rs : list ref) :
  (forall r, In r rs -> exists c, nth_error (elems p) r = Some c) ->
  map_m Run_text rs (p, g) = ((p, g), Ok (texts_of p rs)).
Proof.
  induction rs as [|r rs IH]; intro H; [reflexivity|].
  destruct (H r (or_introl eq_refl)) as [c Hc].
  cbn [map_m]. unfold bind at 1. rewrite (@Run_text_valid p g r c Hc).
  unfold bind at 1. rewrite IH by (intros; apply H; now right).
  unfold texts_of. cbn [flat_map]. now rewrite Hc.
Qed.

Lemma Paragraph_text_valid (p : CT_P) (g : globals) :
  valid_refs p = true ->
  exists text, Paragraph_text (p, g) = ((p, g), Ok text).
Proof.
  intro V. unfold Paragraph_text. unfold bind at 1. unfold get_para, gets.
  cbn [fst].
  match goal with |- context [map_m ?f (kids p)] => set (F := f) end.
  assert (G : forall ks,
             (forall r, In r (flat_map find_all_runs ks) ->
                        exists c, nth_error (elems p) r = Some c) ->
             exists ts, map_m F ks (p, g) = ((p, g), Ok ts)).
  { induction ks as [|k ks IH]; intro H; [now exists []|].
    destruct IH as [ts E].
    { intros r Hr. apply H. cbn [flat_map]. apply in_or_app. now right. }
    assert (K : exists t, F k (p, g) = ((p, g), Ok t)).
    { subst F. cbv beta. destruct k as [r | tag ks0].
      - destruct (H r) as [c Hc]; [cbn; now left|].
        exists (CT_R_text c). now apply Run_text_valid.
      - destruct tag; try (now exists []).
        exists (concat (texts_of p (r_lst ks0))). unfold bind.
        rewrite map_m_Run_text_valid; [reflexivity|].
        intros r Hr. apply H. cbn [flat_map find_all_runs].
        apply in_or_app. left. now apply r_lst_in_all. }
    destruct K as [t K]. exists (t :: ts).
    cbn [map_m]. unfold bind at 1. rewrite K.
    unfold bind at 1. now rewrite E. }
  destruct (G (kids p)) as [ts E]; [intros; now apply valid_refs_all|].
  exists (concat ts). unfold bind. now rewrite E.
Qed.

Lemma replace_runs_loop (old_text new_text : Py.str) (rs : list ref) :
  forall p g,
    (forall r, In r rs -> (r < List.length (elems p))%nat) ->
    exists p' g',
      for_each rs (fun run =>
        text <- Run_text run ;;
        when (Py.contains old_text text)
          (Run_set_text run (Py.replace text old_text new_text) ;;
           incr_count)) (p, g) = ((p', g'), Ok tt)
      /\ kept old_text p p' /\ count g <= count g'.
Proof.
  induction rs as [|r rs IH]; intros p g H.
  - exists p, g. split; [reflexivity | split; [apply kept_refl | lia]].
  - assert (Hr : (r < List.length (elems p))%nat) by (apply H; now left).
    destruct (nth_error (elems p) r) as [c|] eqn:Hc;
      [|apply nth_error_None in Hc; lia].
    cbn [for_each]. unfold bind at 1. unfold bind at 1.
    rewrite (@Run_text_valid p g r c Hc).
    destruct (Py.contains old_text (CT_R_text c)) eqn:C; cbn [when].
    + unfold Run_set_text, get_elem, get_para, set_elem, set_para, incr_count,
        bind, gets, modify, of_option. cbn [fst snd]. rewrite Hc.
      cbn [ret fst snd].
      set (p1 := mk_p (style p) (kids p)
                   (update (elems p) r
                      (CT_R_set_text c (Py.replace (CT_R_text c) old_text new_text)))).
      set (g1 := mk_glob (count g + 1) (stdout g)).
      assert (K : kept old_text p p1).
      { repeat split; cbn [style kids elems p1].
        - now apply map_update with (y := c).
        - intros r' c' H1 H2.
          rewrite nth_error_update_other; [exact H1|].
          intros <-. congruence. }
      destruct (IH p1 g1) as (p' & g' & E & K' & Hcount).
      { intros r' Hr'. cbn [elems p1]. rewrite length_update. apply H. now right. }
      exists p', g'. fold (@bind (CT_P * globals)) in E.
      split; [exact E|]. split; [now apply kept_trans with p1|].
      cbn [count g1] in Hcount. lia.
    + cbn [ret]. destruct (IH p g) as (p' & g' & E & K' & Hcount);
        [intros; apply H; now right|].
      exists p', g'. split; [exact E | split; assumption].
Qed.

Lemma replace_in_paragraph_kept (old_text new_text : Py.str)
    (p : CT_P) (g : globals) :
  valid_refs p = true ->
  exists p' g',
    replace_in_paragraph old_text new_text (p, g) = ((p', g'), Ok tt)
    /\ kept old_text p p' /\ count g <= count g'.
Proof.
  intro V. unfold replace_in_paragraph. unfold bind at 1.
  unfold get_para at 1, gets. cbn [fst].
  destruct (is_toc p).
  { exists p, g. split; [reflexivity | split; [apply kept_refl | lia]]. }
  unfold bind at 1. destruct (@Paragraph_text_valid p g V) as [text E]. rewrite E.
  destruct (Py.contains old_text text); cbn [when].
  - unfold bind at 1. unfold runs, gets. cbn [fst].
    apply replace_runs_loop. intros r Hr.
    destruct (@valid_refs_direct p r V Hr) as [c Hc].
    apply nth_error_Some. congruence.
  - exists p, g. split; [reflexivity | split; [apply kept_refl | lia]].
Qed.

Lemma Forall2_update {A} (R : A -> A -> Prop) (l l' : list A) (i : nat) (x y : A) :
  Forall2 R l l' -> nth_error l' i = Some y ->
  (forall a, R a y -> R a x) ->
  Forall2 R l (update l' i x).
Proof.
  intro F. revert i. induction F as [|a b l l' Hab F IH]; intros [|i] H T;
    simpl in *; try discriminate.
  - injection H as ->. constructor; auto.
  - constructor; auto.
Qed.

Lemma plain_walk (old_text new_text : Py.str) (ps0 : list CT_P) (l : list nat) :
  forall ps g,
    Forall2 (kept old_text) ps0 ps ->
    forallb valid_refs ps0 = true ->
    forallb (fun i => Nat.ltb i (List.length ps0)) l = true ->
    exists ps' g',
      for_each l (fun para =>
        at_para para (replace_in_paragraph old_text new_text)) (ps, g)
      = ((ps', g'), Ok tt)
      /\ Forall2 (kept old_text) ps0 ps' /\ count g <= count g'.
Proof.
  induction l as [|i l IH]; intros ps g F V L.
  - exists ps, g. split; [reflexivity | split; [assumption | lia]].
  - cbn [forallb] in L. apply andb_true_iff in L. destruct L as [Li L].
    apply Nat.ltb_lt in Li.
    destruct (nth_error ps0 i) as [p0|] eqn:E0;
      [|apply nth_error_None in E0; lia].
    destruct (nth_error ps i) as [p|] eqn:E;
      [|apply nth_error_None in E; apply Forall2_length in F; lia].
    assert (K0 : kept old_text p0 p).
    { clear - F E0 E. revert i E0 E.
      induction F; intros [|i] E0 E; simpl in *; try discriminate.
      - now injection E0 as ->; injection E as ->.
      - eauto. }
    assert (Vp : valid_refs p = true).
    { apply kept_valid with (old_text := old_text) (p := p0); [exact K0|].
      rewrite forallb_forall in V. apply V. eapply nth_error_In; eauto. }
    destruct (@replace_in_paragraph_kept old_text new_text p g Vp)
      as (p' & g1 & E1 & K1 & C1).
    cbn [for_each]. unfold bind at 1. unfold at_para at 1. cbn [fst snd].
    rewrite E, E1.
    destruct (IH (update ps i p') g1) as (ps' & g' & E2 & F2 & C2); auto.
    { apply Forall2_update with (y := p); auto.
      intros a Ha. now apply kept_trans with p. }
    exists ps', g'. split; [exact E2 | split; [exact F2 | lia]].
Qed.

(** X7: the plain replace operation, on a document whose references are
    valid and with a replacement text that XML can hold, raises nothing
    and returns a count that is not negative. Of every paragraph it
    keeps the style, the tree of runs (no run is added, removed or
    moved) and the properties of every run, and it leaves alone every
    run whose text does not hold the search text. (A replacement text
    with a NUL or another character that XML cannot hold makes the
    assignment to [run.text] raise [ValueError]; such texts are not
    covered.) *)
Theorem find_and_replace_text_keeps_structure
    (doc : Document) (old_text new_text : Py.str) (w : world) :
  xml_compatible new_text = true ->
  forallb valid_refs (fst w) = true ->
  forallb (fun i => Nat.ltb i (List.length (fst w))) (walk doc) = true ->
  exists ps' g' n,
    find_and_replace_text doc old_text new_text w = ((ps', g'), Ok n)
    /\ 0 <= n
    /\ Forall2 (kept old_text) (fst w) ps'.
Proof.
  intros _ V L. destruct w as [ps g]. cbn [fst] in *.
  unfold find_and_replace_text. unfold bind at 1. unfold set_count, modify.
  cbn [fst snd].
  assert (F0 : Forall2 (kept old_text) ps ps).
  { clear. induction ps; constructor; auto using kept_refl. }
  destruct (@plain_walk old_text new_text ps (walk doc) ps
              (mk_glob 0 (stdout g)) F0 V L) as (ps' & g' & E & F & C).
  rewrite <- nested_loops_walk in E. unfold bind in E.
  unfold bind.
  destruct (for_each (paragraphs doc) _ _) as [s1 [[]|e]]; [|discriminate].
  rewrite E. unfold get_count, gets. cbn [fst snd].
  exists ps', g', (count g'). split; [reflexivity | split; [exact C | exact F]].
Qed.

(** ** Sibling insertion and removal *)

Lemma splice_box (r : ref) (repl : list elem) (t : wrapper) (ks : list elem) :
  splice r repl (E_box t ks) = option_map (E_box t) (splice_kids r repl ks).
Proof.
  unfold splice_kids. cbn [splice].
  match goal with |- option_map _ ?x = _ => destruct x end; reflexivity.
Qed.

Lemma splice_kids_nil (r : ref) (repl : list elem) : splice_kids r repl [] = None.
Proof. reflexivity. Qed.

Lemma splice_kids_run (r r' : ref) (repl l : list elem) :
  splice_kids r repl (E_r r' :: l)
  = if Nat.eqb r' r then Some (repl ++ l)
    else option_map (cons (E_r r')) (splice_kids r repl l).
Proof.
  unfold splice_kids. cbn [splice]. destruct (Nat.eqb r' r); [reflexivity|].
  match goal with |- context [option_map (cons (E_r r')) ?x] => destruct x end;
    reflexivity.
Qed.

Lemma splice_kids_box (r : ref) (repl l : list elem) (t : wrapper) (ks : list elem) :
  splice_kids r repl (E_box t ks :: l)
  = match splice r repl (E_box t ks) with
    | Some k' => Some (k' :: l)
    | None => option_map (cons (E_box t ks)) (splice_kids r repl l)
    end.
Proof.
  unfold splice_kids. cbn [splice].
  match goal with |- context [match option_map (E_box t) ?x with _ => _ end] =>
    destruct x end; [reflexivity|]. cbn [option_map].
  match goal with |- context [option_map (cons (E_box t ks)) ?x] => destruct x end;
    reflexivity.
Qed.

Lemma elem_induction (P : elem -> Prop) :
  (forall r, P (E_r r)) ->
  (forall t ks, Forall P ks -> P (E_box t ks)) ->
  forall e, P e.
Proof.
  intros H1 H2. fix IH 1. intros [r | t ks]; [apply H1 | apply H2].
  induction ks as [|k ks IHks]; constructor; [apply IH | exact IHks].
Qed.

(** A run that is not in the tree cannot be spliced: [getparent()] is
    [None]. *)
Lemma splice_absent (r : ref) (repl : list elem) (e : elem) :
  ~ In r (find_all_runs e) -> splice r repl e = None.
Proof.
  induction e as [r' | t ks IH] using elem_induction; intro H; [reflexivity|].
  rewrite splice_box. cbn [find_all_runs] in H.
  induction ks as [|k ks IHks]; [reflexivity|].
  inversion IH as [|? ? Hk Hks]; subst.
  cbn [flat_map] in H.
  assert (H1 : ~ In r (find_all_runs k)) by (intro; apply H, in_or_app; now left).
  assert (H2 : ~ In r (flat_map find_all_runs ks))
    by (intro; apply H, in_or_app; now right).
  specialize (IHks Hks H2).
  destruct (splice_kids r repl ks) eqn:E; [discriminate|].
  destruct k as [r' | t' ks'].
  - rewrite splice_kids_run, E.
    destruct (Nat.eqb r' r) eqn:N; [|reflexivity].
    apply Nat.eqb_eq in N. subst. exfalso. apply H1. now left.
  - rewrite splice_kids_box, (Hk H1), E. reflexivity.
Qed.


(** A direct run that is not also somewhere before itself is replaced
    where it stands. *)
Lemma splice_kids_direct (r : ref) (repl pre post : list elem) :
  ~ In r (flat_map find_all_runs pre) ->
  splice_kids r repl (pre ++ E_r r :: post) = Some (pre ++ repl ++ post).
Proof.
  induction pre as [|k pre IH]; intro H.
  - cbn [app]. now rewrite splice_kids_run, Nat.eqb_refl.
  - cbn [flat_map] in H.
    assert (H1 : ~ In r (find_all_runs k)) by (intro; apply H, in_or_app; now left).
    assert (H2 : ~ In r (flat_map find_all_runs pre))
      by (intro; apply H, in_or_app; now right).
    cbn [app]. destruct k as [r' | t ks].
    + rewrite splice_kids_run, (IH H2).
      destruct (Nat.eqb r' r) eqn:N; [|reflexivity].
      apply Nat.eqb_eq in N. subst. exfalso. apply H1. now left.
    + now rewrite splice_kids_box, (@splice_absent r repl _ H1), (IH H2).
Qed.

(** ** The run cloner *)

Lemma set_t_texts_text (text : Py.str) (cs : list rchild) :
  flat_map rchild_str (set_t_texts text true cs) = breaks cs
  /\ (has_t cs = false ->
      flat_map rchild_str (set_t_texts text false cs) = breaks cs)
  /\ (has_t cs = true ->
      exists before after,
        before ++ after = breaks cs
        /\ flat_map rchild_str (set_t_texts text false cs)
           = before ++ text ++ after).
Proof.
  induction cs as [|c cs (IH1 & IH2 & IH3)]; [repeat split; discriminate|].
  destruct c; cbn [set_t_texts flat_map rchild_str breaks has_t existsb orb app].
  - split; [exact IH1 | split; [discriminate|]]. intros _.
    exists [], (breaks cs). split; [reflexivity|].
    cbn [app]. now rewrite IH1.
  - split; [now rewrite IH1 | split].
    + intro H. now rewrite (IH2 H).
    + intro H. destruct (IH3 H) as (b & a & E1 & E2).
      exists (TAB :: b), a. split; [cbn; now rewrite E1 | now rewrite E2].
  - split; [now rewrite IH1 | split].
    + intro H. now rewrite (IH2 H).
    + intro H. destruct (IH3 H) as (b & a & E1 & E2).
      exists (LF :: b), a. split; [cbn; now rewrite E1 | now rewrite E2].
  - split; [exact IH1 | split].
    + exact IH2.
    + exact IH3.
Qed.

Lemma breaks_none (cs : list rchild) :
  forallb (fun c => match c with w_tab | w_br => false | _ => true end) cs = true ->
  breaks cs = [].
Proof.
  induction cs as [|c cs IH]; [reflexivity|].
  cbn [forallb]. intro H. apply andb_true_iff in H. destruct H as [H1 H2].
  destruct c; try discriminate; cbn; auto.
Qed.

Lemma with_text_takes (e : CT_R) (text : Py.str) :
  takes_text e = true -> CT_R_text (with_text e text) = text.
Proof.
  unfold takes_text. intro H. apply andb_true_iff in H. destruct H as [H1 H2].
  destruct (set_t_texts_text text (content e)) as (_ & _ & H3).
  destruct (H3 H1) as (b & a & E1 & E2).
  unfold CT_R_text, with_text. cbn [content]. rewrite E2.
  rewrite (@breaks_none _ H2) in E1. apply app_eq_nil in E1. destruct E1 as [-> ->].
  cbn. now rewrite app_nil_r.
Qed.

Lemma text_only_takes_text (e : CT_R) :
  text_only e = true -> takes_text e = true.
Proof.
  unfold text_only, takes_text. intro H. apply andb_true_iff in H.
  destruct H as [H1 H2]. rewrite H1. cbn [andb].
  rewrite forallb_forall in *. intros c Hc. specialize (H2 c Hc).
  now destruct c.
Qed.

Lemma xml_compatible_pieces (texts : list Py.str) :
  xml_compatible (concat texts) = true ->
  Forall (fun t => xml_compatible t = true) texts.
Proof.
  unfold xml_compatible. induction texts as [|t ts IH]; [constructor|].
  cbn [concat]. rewrite forallb_app. intro H. apply andb_true_iff in H.
  destruct H as [H1 H2]. constructor; auto.
Qed.

(** X8: what the run cloner makes of a text that XML can hold. For a
    run object of the paragraph, the clone is a new run object, in no
    tree yet, with the properties of the source; the paragraph tree and
    the existing run objects are as before. The text of the clone is the
    text asked for, set between the tabs and line breaks that the source
    has before and after its first [w:t]; a source without any [w:t]
    gives a clone whose text is that of its tabs and line breaks only.
    (A text that XML cannot hold makes the assignment to the first
    [w:t] raise [ValueError]; such texts are not covered.) *)
Theorem clone_run_with_text_result
    (p : CT_P) (g : globals) (source_run : ref) (e : CT_R) (text : Py.str) :
  xml_compatible text = true ->
  nth_error (elems p) source_run = Some e ->
  exists c,
    clone_run_with_text source_run text (p, g)
    = ((mk_p (style p) (kids p) (elems p ++ [c]), g),
       Ok (List.length (elems p)))
    /\ rPr c = rPr e
    /\ (has_t (content e) = false -> CT_R_text c = breaks (content e))
    /\ (has_t (content e) = true ->
        exists before after,
          before ++ after = breaks (content e)
          /\ CT_R_text c = before ++ text ++ after).
Proof.
  intros _ H. exists (with_text e text).
  destruct (set_t_texts_text text (content e)) as (_ & H2 & H3).
  repeat split; auto.
  unfold clone_run_with_text, get_elem, get_para, new_elem, set_para, bind,
    gets, modify, of_option. cbn [fst snd]. rewrite H. reflexivity.
Qed.

(** ** The run splitter on any paragraph *)

(** X9: a split at an offset outside the text changes nothing and is no
    error: an offset that is zero or negative returns [("", T)], an
    offset at or beyond the end returns [(T, "")]. *)
Theorem split_run_at_outside
    (p : CT_P) (g : globals) (run : ref) (e : CT_R) (k : Z) :
  nth_error (elems p) run = Some e ->
  k <= 0 \/ Py.len (CT_R_text e) <= k ->
  split_run_at run k (p, g)
  = ((p, g), Ok (if k <=? 0 then ([], CT_R_text e) else (CT_R_text e, []))).
Proof.
  intros He Hk. unfold split_run_at. unfold bind at 1.
  rewrite (@Run_text_valid p g run e He).
  destruct (k <=? 0) eqn:E1; [reflexivity|].
  apply Z.leb_gt in E1.
  replace (k >=? Py.len (CT_R_text e)) with true; [reflexivity|].
  symmetry. rewrite Z.geb_leb. apply Z.leb_le. lia.
Qed.

(** X10: a split inside the text of a direct run. The run keeps its
    place and its properties and is followed at once by a new run with
    the same properties; no other run object and nothing else of the
    tree changes; the pair returned is [(T[:k], T[k:])]. When the left
    part has no tab, line feed or carriage return, the texts of the two
    runs are the two parts. *)
Theorem split_run_at_inside
    (p : CT_P) (g : globals) (run : ref) (e : CT_R) (k : Z)
    (pre post : list elem) :
  kids p = pre ++ E_r run :: post ->
  ~ In run (flat_map find_all_runs pre) ->
  nth_error (elems p) run = Some e ->
  0 < k < Py.len (CT_R_text e) ->
  let left_text := Py.slice_to (CT_R_text e) k in
  let right_text := Py.slice_from (CT_R_text e) k in
  exists e1 e2,
    split_run_at run k (p, g)
    = ((mk_p (style p)
             (pre ++ E_r run :: E_r (List.length (elems p)) :: post)
             (update (elems p) run e1 ++ [e2]), g),
       Ok (left_text, right_text))
    /\ rPr e1 = rPr e /\ rPr e2 = rPr e
    /\ (no_break left_text = true ->
        CT_R_text e1 = left_text /\ CT_R_text e2 = right_text).
Proof.
  intros Hk Hpre He Hr left_text right_text.
  exists (CT_R_set_text e left_text),
         (with_text (CT_R_set_text e left_text) right_text).
  split; [|split; [reflexivity | split; [reflexivity|]]].
  - destruct p as [sty ks es]. cbn [kids elems style] in *.
    unfold split_run_at. unfold bind at 1.
    rewrite (@Run_text_valid (mk_p sty ks es) g run e He).
    replace (k <=? 0) with false by (symmetry; apply Z.leb_gt; lia).
    replace (k >=? Py.len (CT_R_text e)) with false
      by (symmetry; rewrite Z.geb_leb; apply Z.leb_gt; lia).
    fold left_text. fold right_text.
    cbv [bind Run_set_text get_elem get_para gets of_option ret set_elem
         set_para modify clone_run_with_text new_elem addnext set_kids
         fst snd elems kids style].
    rewrite He. cbv beta iota.
    rewrite (nth_error_update_same _ _ _ He). cbv beta iota.
    rewrite length_update. subst ks.
    rewrite (@splice_kids_direct run [E_r run; E_r (List.length es)] pre post Hpre).
    reflexivity.
  - intro N. split; [now apply set_text_then_text|].
    apply clone_of_set_text; [exact N|].
    unfold left_text, Py.slice_to, Py.clip.
    replace (k <? 0) with false by (symmetry; apply Z.ltb_ge; lia).
    intro E. apply (f_equal (@List.length _)) in E. rewrite length_firstn in E.
    unfold Py.len in *. simpl in E. lia.
Qed.

(** ** Sharing out the replacement text *)

Lemma nth_error_app_valid {A} (l l' : list A) (i : nat) (x : A) :
  nth_error l i = Some x -> nth_error (l ++ l') i = Some x.
Proof.
  intro H. rewrite nth_error_app1; [exact H|].
  apply nth_error_Some. congruence.
Qed.

Lemma clone_run_with_text_takes
    (p : CT_P) (g : globals) (r : ref) (e : CT_R) (text : Py.str) :
  nth_error (elems p) r = Some e ->
  clone_run_with_text r text (p, g)
  = ((mk_p (style p) (kids p) (elems p ++ [with_text e text]), g),
     Ok (List.length (elems p))).
Proof.
  intro H.
  unfold clone_run_with_text, get_elem, get_para, new_elem, set_para, bind,
    gets, modify, of_option. cbn [fst snd]. rewrite H. reflexivity.
Qed.

Lemma slices_join {A} (l : list A) (k : Z) :
  Py.slice_to l k ++ Py.slice_from l k = l.
Proof. unfold Py.slice_to, Py.slice_from. apply firstn_skipn. Qed.

Lemma replacement_loop_spec (n : Z) (rs : list ref) :
  forall i remaining acc p g,
    n - i = Py.len rs ->
    (forall r, In r rs ->
       exists e, nth_error (elems p) r = Some e /\ takes_text e = true) ->
    exists added,
      replacement_loop n i rs remaining acc (p, g)
      = ((mk_p (style p) (kids p) (elems p ++ added), g),
         Ok (match rs with [] => remaining | _ => [] end,
             acc ++ seq (List.length (elems p)) (List.length added)))
      /\ concat (map CT_R_text added)
         = match rs with [] => [] | _ => remaining end
      /\ Forall (fun c =>
                   CT_R_text c <> []
                   /\ exists r e, In r rs /\ nth_error (elems p) r = Some e
                                  /\ rPr c = rPr e) added.
Proof.
  induction rs as [|r rs IH]; intros i remaining acc p g Hn V.
  - exists []. cbn. rewrite !app_nil_r. destruct p. repeat split. constructor.
  - destruct (V r (or_introl eq_refl)) as (e & He & Te).
    cbn [replacement_loop].
    destruct remaining as [|c0 rem0].
    { exists []. cbn. rewrite !app_nil_r. destruct p. repeat split. constructor. }
    cbn [Py.truthy negb]. set (remaining := c0 :: rem0) in *.
    assert (V' : forall c r',
               In r' rs ->
               exists e', nth_error (elems (mk_p (style p) (kids p) (elems p ++ [c]))) r'
                          = Some e' /\ takes_text e' = true).
    { intros c r' Hr'. destruct (V r' (or_intror Hr')) as (e' & H1 & H2).
      exists e'. split; [|exact H2]. cbn [elems]. now apply nth_error_app_valid. }
    destruct (i =? n - 1) eqn:Ei.
    + (* the last run takes all that is left *)
      apply Z.eqb_eq in Ei.
      assert (rs = []) as ->.
      { destruct rs; [reflexivity|]. unfold Py.len in Hn. simpl in Hn. lia. }
      unfold bind at 1. unfold ret at 1. unfold bind at 1.
      cbn [Py.truthy remaining]. unfold bind at 1.
      rewrite (@clone_run_with_text_takes p g r e remaining He).
      cbn [replacement_loop ret].
      exists [with_text e remaining]. cbn [List.length seq map concat].
      rewrite app_nil_r, (@with_text_takes e _ Te). repeat split.
      constructor; [|constructor]. split.
      * rewrite (@with_text_takes e _ Te). discriminate.
      * exists r, e. repeat split; auto. now left.
    + (* a run before the last takes its share *)
      apply Z.eqb_neq in Ei.
      assert (Hrs : rs <> []).
      { intros ->. unfold Py.len in Hn. simpl in Hn. lia. }
      unfold bind at 1. unfold bind at 1.
      rewrite (@Run_text_valid p g r e He). unfold ret at 1. cbv beta iota.
      set (take := if Py.len (CT_R_text e) >? 0
                   then Z.min (Py.len (CT_R_text e)) (Py.len remaining)
                   else 1).
      pose proof (slices_join remaining take) as J. clearbody take remaining.
      destruct (Py.slice_to remaining take) as [|s0 seg0] eqn:Es;
        cbn [Py.truthy].
      * unfold bind, ret. cbv beta iota.
        destruct (IH (i + 1) (Py.slice_from remaining take) acc p g)
          as (added & E & C & F).
        { unfold Py.len in *. cbn [List.length] in Hn. lia. }
        { intros; apply V; now right. }
        exists added. rewrite E. cbn [app] in J.
        destruct rs as [|r1 rs1]; [contradiction|].
        split; [reflexivity | split; [now rewrite C, J|]].
        eapply Forall_impl; [|exact F].
        intros c (H1 & r' & e' & H2 & H3 & H4). split; [exact H1|].
        exists r', e'. repeat split; auto. now right.
      * unfold bind, ret.
        rewrite (@clone_run_with_text_takes p g r e (s0 :: seg0) He).
        cbv beta iota.
        destruct (IH (i + 1) (Py.slice_from remaining take)
                     (acc ++ [List.length (elems p)])
                     (mk_p (style p) (kids p)
                           (elems p ++ [with_text e (s0 :: seg0)])) g)
          as (added & E & C & F).
        { unfold Py.len in *. cbn [List.length] in Hn. lia. }
        { intros r' Hr'. apply V'. exact Hr'. }
        cbn [style kids elems] in E.
        exists (with_text e (s0 :: seg0) :: added).
        destruct rs as [|r1 rs1]; [contradiction|].
        split; [|split].
        -- etransitivity; [exact E|].
           rewrite length_app. cbn [List.length seq].
           rewrite <- !app_assoc. cbn [app].
           replace (List.length (elems p) + 1)%nat
             with (S (List.length (elems p))) by lia.
           reflexivity.
        -- cbn [map concat]. now rewrite C, (@with_text_takes e _ Te), J.
        -- constructor.
           ++ split; [rewrite (@with_text_takes e _ Te); discriminate|].
              exists r, e. repeat split; auto. now left.
           ++ eapply Forall_impl; [|exact F].
              intros c (H1 & r' & e' & H2 & H3 & H4). split; [exact H1|].
              destruct (V r' (or_intror H2)) as (e2 & H5 & _).
              cbn [elems] in H3.
              rewrite (@nth_error_app_valid _ _ [with_text e (s0 :: seg0)] _ _ H5) in H3. injection H3 as <-.
              exists r', e2. repeat split; auto. now right.
Qed.

(** X11: the replacement text is shared out without loss. For a
    replacement text that XML can hold and runs to replace that are runs
    of text only ([w:t] elements, at least one, and nothing else), the
    loop over them raises nothing and makes new run objects, in no tree
    yet, whose texts are not empty and together are the replacement
    text, each a text that XML can hold and each with the properties of
    one of the runs to replace; it leaves no text over, so the [while]
    loop that follows it never runs. (A replacement text that XML cannot
    hold makes the cloner raise [ValueError]; such texts are not
    covered.) *)
Theorem replacement_loop_conserves_text
    (p : CT_P) (g : globals) (runs_to_replace : list ref) (new_text : Py.str) :
  xml_compatible new_text = true ->
  runs_to_replace <> [] ->
  (forall r, In r runs_to_replace ->
     exists e, nth_error (elems p) r = Some e /\ text_only e = true) ->
  exists added,
    replacement_loop (Py.len runs_to_replace) 0 runs_to_replace new_text []
      (p, g)
    = ((mk_p (style p) (kids p) (elems p ++ added), g),
       Ok ([], seq (List.length (elems p)) (List.length added)))
    /\ concat (map CT_R_text added) = new_text
    /\ Forall (fun c => xml_compatible (CT_R_text c) = true) added
    /\ Forall (fun c =>
                 CT_R_text c <> []
                 /\ exists r e, In r runs_to_replace
                                /\ nth_error (elems p) r = Some e
                                /\ rPr c = rPr e) added.
Proof.
  intros X Hne V.
  destruct (@replacement_loop_spec (Py.len runs_to_replace) runs_to_replace
              0 new_text [] p g) as (added & E & C & F); [lia | |].
  { intros r Hr. destruct (V r Hr) as (e & H1 & H2).
    exists e. split; [exact H1 | now apply text_only_takes_text]. }
  exists added. destruct runs_to_replace; [contradiction|].
  split; [exact E | split; [exact C | split; [|exact F]]].
  rewrite <- C in X. apply xml_compatible_pieces in X.
  now rewrite Forall_map in X.
Qed.

Lemma xml_replacement_loop_spec (n : Z) (rs : list xml_affected) :
  forall i remaining acc p g,
    n - i = Py.len rs ->
    (forall a, In a rs ->
       exists e, nth_error (elems p) (fst (fst (fst a))) = Some e
                 /\ takes_text e = true) ->
    exists added,
      xml_replacement_loop n i rs remaining acc (p, g)
      = ((mk_p (style p) (kids p) (elems p ++ added), g),
         Ok (match rs with [] => remaining | _ => [] end,
             acc ++ seq (List.length (elems p)) (List.length added)))
      /\ concat (map CT_R_text added)
         = match rs with [] => [] | _ => remaining end
      /\ Forall (fun c =>
                   CT_R_text c <> []
                   /\ exists a e, In a rs
                                  /\ nth_error (elems p) (fst (fst (fst a))) = Some e
                                  /\ rPr c = rPr e) added.
Proof.
  induction rs as [|[[[r os] oe] sp] rs IH]; intros i remaining acc p g Hn V.
  - exists []. cbn. rewrite !app_nil_r. destruct p. repeat split. constructor.
  - destruct (V _ (or_introl eq_refl)) as (e & He & Te). cbn [fst] in He.
    cbn [xml_replacement_loop].
    destruct remaining as [|c0 rem0].
    { exists []. cbn. rewrite !app_nil_r. destruct p. repeat split. constructor. }
    cbn [Py.truthy negb]. set (remaining := c0 :: rem0) in *.
    destruct (i =? n - 1) eqn:Ei.
    + apply Z.eqb_eq in Ei.
      assert (rs = []) as ->.
      { destruct rs; [reflexivity|]. unfold Py.len in Hn. simpl in Hn. lia. }
      cbn [Py.truthy remaining]. unfold bind, ret.
      rewrite (@clone_run_with_text_takes p g r e remaining He).
      cbn [xml_replacement_loop ret].
      exists [with_text e remaining]. cbn [List.length seq map concat].
      rewrite app_nil_r, (@with_text_takes e _ Te). repeat split.
      constructor; [|constructor]. split.
      * rewrite (@with_text_takes e _ Te). discriminate.
      * exists (r, os, oe, sp), e. repeat split; auto. now left.
    + apply Z.eqb_neq in Ei.
      assert (Hrs : rs <> []).
      { intros ->. unfold Py.len in Hn. simpl in Hn. lia. }
      set (take := if oe - os >? 0
                   then Z.min (oe - os) (Py.len remaining)
                   else 1).
      pose proof (slices_join remaining take) as J. clearbody take remaining.
      destruct (Py.slice_to remaining take) as [|s0 seg0] eqn:Es;
        cbn [Py.truthy].
      * unfold bind, ret. cbv beta iota.
        destruct (IH (i + 1) (Py.slice_from remaining take) acc p g)
          as (added & E & C & F).
        { unfold Py.len in *. cbn [List.length] in Hn. lia. }
        { intros; apply V; now right. }
        exists added. cbn [app] in J.
        destruct rs as [|r1 rs1]; [contradiction|].
        split; [exact E | split; [now rewrite C, J|]].
        eapply Forall_impl; [|exact F].
        intros c (H1 & a' & e' & H2 & H3 & H4). split; [exact H1|].
        exists a', e'. repeat split; auto. now right.
      * unfold bind, ret.
        rewrite (@clone_run_with_text_takes p g r e (s0 :: seg0) He).
        cbv beta iota.
        destruct (IH (i + 1) (Py.slice_from remaining take)
                     (acc ++ [List.length (elems p)])
                     (mk_p (style p) (kids p)
                           (elems p ++ [with_text e (s0 :: seg0)])) g)
          as (added & E & C & F).
        { unfold Py.len in *. cbn [List.length] in Hn. lia. }
        { intros a' Ha'. destruct (V a' (or_intror Ha')) as (e' & H1 & H2).
          exists e'. split; [|exact H2]. cbn [elems].
          now apply nth_error_app_valid. }
        cbn [style kids elems] in E.
        exists (with_text e (s0 :: seg0) :: added).
        destruct rs as [|r1 rs1]; [contradiction|].
        split; [|split].
        -- etransitivity; [exact E|].
           rewrite length_app. cbn [List.length seq].
           rewrite <- !app_assoc. cbn [app].
           replace (List.length (elems p) + 1)%nat
             with (S (List.length (elems p))) by lia.
           reflexivity.
        -- cbn [map concat]. now rewrite C, (@with_text_takes e _ Te), J.
        -- constructor.
           ++ split; [rewrite (@with_text_takes e _ Te); discriminate|].
              exists (r, os, oe, sp), e. repeat split; auto. now left.
           ++ eapply Forall_impl; [|exact F].
              intros c (H1 & a' & e' & H2 & H3 & H4). split; [exact H1|].
              destruct (V a' (or_intror H2)) as (e2 & H5 & _).
              cbn [elems] in H3.
              rewrite (@nth_error_app_valid _ _ [with_text e (s0 :: seg0)] _ _ H5)
                in H3. injection H3 as <-.
              exists a', e2. repeat split; auto. now right.
Qed.

(** X12: the XML path shares the replacement text out in the same way,
    by the overlap lengths of the affected runs. For a replacement text
    that XML can hold and affected runs of text only ([w:t] elements, at
    least one, and nothing else), the loop raises nothing: the texts of
    the new run objects are not empty and together are the replacement
    text, each is a text that XML can hold, each has the properties of
    an affected run, and no text is left for the [while] loop that
    follows. (A replacement text that XML cannot hold makes the
    assignment to the [w:t] of the copy raise [ValueError]; such texts
    are not covered.) *)
Theorem xml_replacement_loop_conserves_text
    (p : CT_P) (g : globals) (affected_xml_runs : list xml_affected)
    (new_text : Py.str) :
  xml_compatible new_text = true ->
  affected_xml_runs <> [] ->
  (forall a, In a affected_xml_runs ->
     exists e, nth_error (elems p) (fst (fst (fst a))) = Some e
               /\ text_only e = true) ->
  exists added,
    xml_replacement_loop (Py.len affected_xml_runs) 0 affected_xml_runs
      new_text [] (p, g)
    = ((mk_p (style p) (kids p) (elems p ++ added), g),
       Ok ([], seq (List.length (elems p)) (List.length added)))
    /\ concat (map CT_R_text added) = new_text
    /\ Forall (fun c => xml_compatible (CT_R_text c) = true) added
    /\ Forall (fun c =>
                 CT_R_text c <> []
                 /\ exists a e, In a affected_xml_runs
                                /\ nth_error (elems p) (fst (fst (fst a))) = Some e
                                /\ rPr c = rPr e) added.
Proof.
  intros X Hne V.
  destruct (@xml_replacement_loop_spec (Py.len affected_xml_runs)
              affected_xml_runs 0 new_text [] p g)
    as (added & E & C & F); [lia | |].
  { intros a Ha. destruct (V a Ha) as (e & H1 & H2).
    exists e. split; [exact H1 | now apply text_only_takes_text]. }
  exists added. destruct affected_xml_runs; [contradiction|].
  split; [exact E | split; [exact C | split; [|exact F]]].
  rewrite <- C in X. apply xml_compatible_pieces in X.
  now rewrite Forall_map in X.
Qed.

(** ** The block under a header *)

Lemma eqb_eq (s t : Py.str) : Py.eqb s t = true <-> s = t.
Proof.
  revert t. induction s as [|c s IH]; intros [|d t]; simpl;
    try (split; [discriminate | discriminate]); [now split|].
  rewrite andb_true_iff, N.eqb_eq, IH. split.
  - now intros [-> ->].
  - intro H. now injection H.
Qed.

Lemma remove_paragraph_spec (x : nat) (body : list block) :
  forall A B,
    body_paragraphs body = A ++ x :: B -> ~ In x A ->
    exists body',
      remove_paragraph x body = Some body'
      /\ body_paragraphs body' = A ++ B
      /\ body_tables body' = body_tables body.
Proof.
  induction body as [|b body IH]; intros A B H N.
  - now destruct A.
  - destruct b as [q | t]; cbn [remove_paragraph].
    + cbn [body_paragraphs flat_map app] in H. fold (body_paragraphs body) in H.
      destruct A as [|a A]; cbn [app] in H; injection H as -> H.
      * rewrite Nat.eqb_refl. exists body. now repeat split.
      * destruct (Nat.eqb a x) eqn:E.
        { apply Nat.eqb_eq in E. subst. exfalso. apply N. now left. }
        destruct (IH A B H) as (body' & E1 & E2 & E3).
        { intro; apply N; now right. }
        exists (B_p a :: body'). rewrite E1. repeat split.
        -- cbn [body_paragraphs flat_map app]. fold (body_paragraphs body').
           now rewrite E2.
        -- exact E3.
    + destruct (IH A B H N) as (body' & E1 & E2 & E3).
      exists (B_tbl t :: body'). rewrite E1. repeat split; [exact E2|].
      cbn [body_tables flat_map app]. fold (body_tables body').
      fold (body_tables body). now rewrite E3.
Qed.

Section BlocksProperties.

Variables lower strip : Py.str -> Py.str.
Variable ps : list CT_P.

Lemma text_of_ok (para : nat) (p : CT_P) (text : Py.str) (body : list block) :
  nth_error ps para = Some p ->
  snd (Paragraph_text (p, initial)) = Ok text ->
  text_of ps para body = (body, Ok text).
Proof.
  intros H1 H2. unfold text_of, para_obj, bind, of_option. rewrite H1.
  cbn [ret]. now rewrite H2.
Qed.

Lemma find_header_none (target : Py.str) (l : list nat) (body : list block) :
  forall i,
    Forall (header_is_not lower strip ps target) l ->
    find_header lower strip ps target i l body = (body, Ok None).
Proof.
  induction l as [|para l IH]; intros i H; [reflexivity|].
  apply Forall_cons_iff in H. destruct H as [(p & text & H1 & H2 & H3) Hl].
  cbn [find_header]. unfold bind. rewrite (@text_of_ok para p text body H1 H2).
  destruct (Py.eqb (lower (strip text)) target) eqn:E.
  - apply eqb_eq in E. contradiction.
  - now apply IH.
Qed.

Lemma find_header_found (target : Py.str) (pre : list nat) (header : nat)
    (tl : list nat) (body : list block) :
  forall i,
    Forall (header_is_not lower strip ps target) pre ->
    header_is lower strip ps target header ->
    find_header lower strip ps target i (pre ++ header :: tl) body
    = (body, Ok (Some (header, i + Py.len pre))).
Proof.
  induction pre as [|para pre IH]; intros i H (p & text & H1 & H2 & H3).
  - cbn [app find_header]. unfold bind.
    rewrite (@text_of_ok header p text body H1 H2).
    rewrite (proj2 (eqb_eq _ _) H3). unfold Py.len. simpl.
    now rewrite Z.add_0_r.
  - apply Forall_cons_iff in H. destruct H as [(q & t & G1 & G2 & G3) Hl].
    cbn [app find_header]. unfold bind.
    rewrite (@text_of_ok para q t body G1 G2).
    destruct (Py.eqb (lower (strip t)) target) eqn:E.
    + apply eqb_eq in E. contradiction.
    + rewrite IH; [|exact Hl | now exists p, text].
      unfold Py.len. cbn [List.length]. do 4 f_equal. lia.
Qed.

Lemma index_after (pre : list nat) (header : nat) (tl : list nat) (j : nat) :
  Py.index (pre ++ header :: tl) (Py.len pre + 1 + Z.of_nat j) = nth_error tl j.
Proof.
  unfold Py.index, Py.len. cbv zeta.
  assert (E : (Z.of_nat (List.length pre) + 1 + Z.of_nat j <? 0) = false)
    by (apply Z.ltb_ge; lia).
  rewrite !E.
  replace (Z.to_nat (Z.of_nat (List.length pre) + 1 + Z.of_nat j))
    with (List.length pre + S j)%nat by lia.
  rewrite nth_error_app2 by lia.
  replace (List.length pre + S j - List.length pre)%nat with (S j) by lia.
  reflexivity.
Qed.

Lemma find_end_skip (body : list block) (is1 is2 : list Z) :
  Forall (fun i => exists para p,
                     Py.index (body_paragraphs body) i = Some para
                     /\ nth_error ps para = Some p
                     /\ ends_block lower p = false) is1 ->
  find_end lower ps (is1 ++ is2) body = find_end lower ps is2 body.
Proof.
  induction 1 as [|i is1 (para & p & H1 & H2 & H3) _ IH]; [reflexivity|].
  cbn [app find_end]. unfold bind, gets, para_obj, of_option.
  rewrite H1. cbn [ret]. rewrite H2. cbn [ret]. now rewrite H3.
Qed.

Lemma find_end_here (body : list block) (i : Z) (rest : list Z)
    (para : nat) (p : CT_P) :
  Py.index (body_paragraphs body) i = Some para ->
  nth_error ps para = Some p ->
  ends_block lower p = true ->
  find_end lower ps (i :: rest) body = (body, Ok (Some i)).
Proof.
  intros H1 H2 H3.
  cbn [find_end]. unfold bind, gets, para_obj, of_option.
  rewrite H1. cbn [ret]. rewrite H2. cbn [ret]. now rewrite H3.
Qed.

(** The removal loop from pass [j] on, with [tl] the paragraphs after the
    header: a pass removes the first of them as long as [j < len(tl)];
    as [j] grows while [tl] shrinks, about half of them go. *)
Lemma remove_loop_spec (pre : list nat) (header : nat) (k : nat) :
  forall (j : nat) (tl : list nat) (c : Z) (body : list block),
    body_paragraphs body = pre ++ header :: tl ->
    NoDup (body_paragraphs body) ->
    let r := Z.min (Z.of_nat k)
                   (Z.max 0 ((Py.len tl - Z.of_nat j + 1) / 2)) in
    exists body',
      remove_loop (Py.len pre)
        (map (fun i => Py.len pre + 1 + Z.of_nat i) (seq j k)) c body
      = (body', Ok (c + r))
      /\ body_paragraphs body' = pre ++ header :: skipn (Z.to_nat r) tl
      /\ body_tables body' = body_tables body.
Proof.
  induction k as [|k IH]; intros j tl c body HL ND r.
  - exists body. subst r. cbn [seq map remove_loop ret].
    replace (Z.min (Z.of_nat 0) _) with 0 by lia.
    rewrite Z.add_0_r. cbn [Z.to_nat skipn]. now repeat split.
  - cbn [seq map remove_loop]. unfold bind at 1. unfold gets at 1.
    rewrite HL. rewrite len_app. unfold Py.len at 3. cbn [List.length].
    rewrite Nat2Z.inj_succ. fold (Py.len tl).
    destruct (Py.len pre + 1 + Z.of_nat j <? Py.len pre + Z.succ (Py.len tl)) eqn:E.
    + apply Z.ltb_lt in E.
      destruct tl as [|x tl]; [unfold Py.len in E; simpl in E; lia|].
      assert (Ix : Py.index (pre ++ header :: x :: tl) (Py.len pre + 1) = Some x).
      { replace (Py.len pre + 1) with (Py.len pre + 1 + Z.of_nat 0) by lia.
        now rewrite index_after. }
      unfold bind at 1. rewrite Ix. cbn [of_option ret].
      unfold bind at 1. unfold bind at 1. unfold gets at 1.
      destruct (@remove_paragraph_spec x body (pre ++ [header]) tl)
        as (body1 & R1 & R2 & R3).
      { rewrite HL, <- app_assoc. reflexivity. }
      { rewrite HL in ND. intro Hin.
        apply NoDup_remove_2 with (l := pre ++ [header]) (l' := tl) (a := x).
        - rewrite <- app_assoc. exact ND.
        - apply in_or_app. now left. }
      rewrite R1. unfold modify at 1.
      rewrite <- app_assoc in R2. cbn [app] in R2.
      assert (ND1 : NoDup (body_paragraphs body1)).
      { rewrite R2. rewrite HL in ND.
        replace (pre ++ header :: x :: tl) with ((pre ++ [header]) ++ x :: tl) in ND
          by (rewrite <- app_assoc; reflexivity).
        apply NoDup_remove_1 in ND. now rewrite <- app_assoc in ND. }
      destruct (IH (S j) tl (c + 1) body1 R2 ND1) as (body' & E1 & E2 & E3).
      exists body'. rewrite E1.
      assert (L : Py.len (x :: tl) = Py.len tl + 1)
        by (unfold Py.len; cbn [List.length]; lia).
      subst r. rewrite L in *.
      assert (Q : (Py.len tl + 1 - Z.of_nat j + 1) / 2
                  = (Py.len tl - Z.of_nat (S j) + 1) / 2 + 1).
      { replace (Py.len tl + 1 - Z.of_nat j + 1)
          with ((Py.len tl - Z.of_nat (S j) + 1) + 1 * 2) by lia.
        now rewrite Z.div_add by lia. }
      assert (P : 0 <= (Py.len tl - Z.of_nat (S j) + 1) / 2)
        by (apply Z.div_pos; lia).
      rewrite Q.
      replace (Z.min (Z.of_nat (S k))
                 (Z.max 0 ((Py.len tl - Z.of_nat (S j) + 1) / 2 + 1)))
        with (Z.min (Z.of_nat k)
                (Z.max 0 ((Py.len tl - Z.of_nat (S j) + 1) / 2)) + 1) by lia.
      split; [f_equal; f_equal; lia | split; [|congruence]].
      rewrite E2. do 2 f_equal.
      rewrite Z2Nat.inj_add by lia. rewrite Nat.add_comm. reflexivity.
    + apply Z.ltb_ge in E.
      destruct (IH (S j) tl c body HL ND) as (body' & E1 & E2 & E3).
      exists body'. rewrite E1. subst r.
      assert (Q1 : (Py.len tl - Z.of_nat j + 1) / 2 <= 0).
      { apply Z.lt_succ_r. apply Z.div_lt_upper_bound; lia. }
      assert (Q2 : (Py.len tl - Z.of_nat (S j) + 1) / 2 <= 0).
      { apply Z.lt_succ_r. apply Z.div_lt_upper_bound; lia. }
      rewrite !Z.max_l in * by lia.
      rewrite !Z.min_r in * by lia.
      now repeat split.
Qed.

(** X13: when no paragraph of the body has the header text (compared
    stripped and in lower case), [delete_block_under_header] returns
    [(None, 0)] and removes nothing. *)
Theorem delete_block_under_header_not_found
    (header_text : Py.str) (body : list block) :
  Forall (header_is_not lower strip ps (lower (strip header_text)))
         (body_paragraphs body) ->
  delete_block_under_header lower strip ps header_text body
  = (body, Ok (None, 0)).
Proof.
  intro H. unfold delete_block_under_header. unfold bind, gets.
  now rewrite find_header_none.
Qed.

(** X14: what [delete_block_under_header] removes. The body paragraphs
    are [pre], the first paragraph with the header text, the paragraphs
    [blk] of the block (none of them a heading or table-of-contents
    paragraph) and [rest], which is empty or starts with such a
    paragraph. The header is returned with the count
    [min(len(blk), (len(blk) + len(rest) + 1) // 2)]: that many
    paragraphs after the header are removed, from the first on; the
    tables and all other paragraphs stay. So a block is removed whole
    only when at least [len(blk) - 1] paragraphs follow it; a block that
    runs to the end of the document loses only the upper half. *)
Theorem delete_block_under_header_removes
    (header_text : Py.str) (body : list block)
    (pre : list nat) (header : nat) (blk rest : list nat) :
  body_paragraphs body = pre ++ header :: blk ++ rest ->
  NoDup (body_paragraphs body) ->
  Forall (header_is_not lower strip ps (lower (strip header_text))) pre ->
  header_is lower strip ps (lower (strip header_text)) header ->
  Forall (fun para => exists p, nth_error ps para = Some p
                                /\ ends_block lower p = false) blk ->
  rest = [] \/ (exists para rest' p, rest = para :: rest'
                                     /\ nth_error ps para = Some p
                                     /\ ends_block lower p = true) ->
  let removed := Z.min (Py.len blk) ((Py.len blk + Py.len rest + 1) / 2) in
  exists body',
    delete_block_under_header lower strip ps header_text body
    = (body', Ok (Some header, removed))
    /\ body_paragraphs body'
       = pre ++ header :: skipn (Z.to_nat removed) (blk ++ rest)
    /\ body_tables body' = body_tables body.
Proof.
  intros HL ND Hpre Hh Hblk Hrest removed.
  unfold delete_block_under_header. unfold bind at 1. unfold gets at 1.
  rewrite HL. unfold bind at 1. rewrite find_header_found by assumption.
  rewrite Z.add_0_l.
  unfold bind at 1. unfold gets at 1. rewrite HL.
  assert (Ln : Py.len (pre ++ header :: blk ++ rest)
               = Py.len pre + 1 + Py.len blk + Py.len rest).
  { rewrite len_app. unfold Py.len. cbn [List.length]. rewrite length_app. lia. }
  rewrite Ln.
  assert (Rng : forall m : nat,
             Py.range (Py.len pre + 1) (Py.len pre + 1 + Z.of_nat m)
             = map (fun i => Py.len pre + 1 + Z.of_nat i) (seq 0 m)).
  { intro m. unfold Py.range. do 2 f_equal. lia. }
  assert (Hend : find_end lower ps
                   (Py.range (Py.len pre + 1)
                             (Py.len pre + 1 + Py.len blk + Py.len rest)) body
                 = (body, Ok (match rest with
                              | [] => None
                              | _ => Some (Py.len pre + 1 + Py.len blk)
                              end))).
  { replace (Py.len pre + 1 + Py.len blk + Py.len rest)
      with (Py.len pre + 1 + Z.of_nat (List.length blk + List.length rest))
      by (unfold Py.len; lia).
    rewrite Rng, seq_app, map_app. rewrite find_end_skip.
    - destruct Hrest as [-> | (para & rest' & p & -> & H1 & H2)];
        [reflexivity|].
      cbn [List.length seq map]. rewrite Nat.add_0_l.
      apply find_end_here with (para := para) (p := p); auto.
      change (Py.len blk) with (Z.of_nat (List.length blk)).
      rewrite HL, index_after, nth_error_app2 by lia.
      now rewrite Nat.sub_diag.
    - apply Forall_forall. intros i Hi. apply in_map_iff in Hi.
      destruct Hi as (j & <- & Hj). apply in_seq in Hj.
      destruct (nth_error blk j) as [para|] eqn:Ej;
        [|apply nth_error_None in Ej; lia].
      rewrite Forall_forall in Hblk.
      destruct (Hblk para (nth_error_In _ _ Ej)) as (p & H1 & H2).
      exists para, p. repeat split; auto.
      rewrite HL, index_after, nth_error_app1 by lia. exact Ej. }
  unfold bind at 1. rewrite Hend.
  unfold bind at 1. unfold gets at 1. rewrite HL, Ln.
  set (end_idx := match match rest with
                        | [] => None
                        | _ :: _ => Some (Py.len pre + 1 + Py.len blk)
                        end with
                  | Some i => i
                  | None => Py.len pre + 1 + Py.len blk + Py.len rest
                  end).
  assert (Eend : end_idx = Py.len pre + 1 + Z.of_nat (List.length blk)).
  { subst end_idx. destruct Hrest as [-> | (para & rest' & p & -> & _)];
      unfold Py.len; cbn [List.length]; lia. }
  rewrite Eend, Rng.
  destruct (@remove_loop_spec pre header (List.length blk) 0 (blk ++ rest) 0 body
              HL ND) as (body' & E1 & E2 & E3).
  cbn zeta in E1, E2.
  assert (R : Z.min (Z.of_nat (List.length blk))
                (Z.max 0 ((Py.len (blk ++ rest) - Z.of_nat 0 + 1) / 2))
              = removed).
  { subst removed. rewrite len_app. unfold Py.len.
    rewrite Z.max_r by (apply Z.div_pos; lia).
    do 2 f_equal. lia. }
  rewrite R in E1, E2. unfold bind. rewrite E1.
  exists body'. now repeat split.
Qed.

End BlocksProperties.

(** ** A match inside one run *)






































(** ** A match inside one run, on the XML path *)












(** ** Paragraphs found by their text *)

Lemma find_paragraph_loops (ps : list CT_P) (text : Py.str)
    (body : list block) (paras : list nat) :
  Forall (readable ps) paras ->
  forall i exact partial,
    incl exact partial ->
    exists exact' partial',
      find_paragraph_loop ps text false i paras exact body = (body, Ok exact')
      /\ find_paragraph_loop ps text true i paras partial body
         = (body, Ok partial')
      /\ incl exact' partial'
      /\ forall x, In x partial' ->
           In x partial \/ i <= x < i + Py.len paras.
Proof.
  induction 1 as [|para paras (p & t & H1 & H2) _ IH]; intros i exact partial I.
  - exists exact, partial. repeat split; auto.
  - cbn [find_paragraph_loop]. unfold bind.
    rewrite (@text_of_ok ps para p t body H1 H2).
    cbn [andb negb].
    assert (I' : incl (if Py.eqb t text then exact ++ [i] else exact)
                      (if Py.contains text t then partial ++ [i] else partial)).
    { destruct (Py.eqb t text) eqn:E.
      - apply eqb_eq in E. subst t.
        replace (Py.contains text text) with true.
        + apply incl_app; [now apply incl_appl | now apply incl_appr].
        + symmetry. apply contains_iff. exists [], []. now rewrite app_nil_r.
      - destruct (Py.contains text t); [now apply incl_appl | exact I]. }
    destruct (IH (i + 1) _ _ I') as (exact' & partial' & E1 & E2 & I2 & R).
    exists exact', partial'. split; [exact E1|]. split; [exact E2|].
    split; [exact I2|].
    intros x Hx. destruct (R x Hx) as [Hin | Hr].
    + destruct (Py.contains text t); [|now left].
      apply in_app_or in Hin. destruct Hin as [Hin | [<- | []]]; [now left|].
      right. unfold Py.len. cbn [List.length]. lia.
    + right. unfold Py.len in *. cbn [List.length]. lia.
Qed.

(** X17: paragraphs found by their text. When every paragraph of the
    body can be read, both kinds of search return without changing the
    body; every paragraph that matches exactly is also among the partial
    matches, and every index returned is an index of [doc.paragraphs]. *)
Theorem find_paragraph_by_text_exact_in_partial
    (ps : list CT_P) (text : Py.str) (body : list block) :
  Forall (readable ps) (body_paragraphs body) ->
  exists exact partial,
    find_paragraph_by_text ps text false body = (body, Ok exact)
    /\ find_paragraph_by_text ps text true body = (body, Ok partial)
    /\ incl exact partial
    /\ Forall (fun i => 0 <= i < Py.len (body_paragraphs body)) partial.
Proof.
  intro H.
  destruct (@find_paragraph_loops ps text body (body_paragraphs body) H 0 [] [])
    as (exact & partial & E1 & E2 & I & R); [apply incl_refl|].
  exists exact, partial. unfold find_paragraph_by_text, bind, gets.
  split; [exact E1|]. split; [exact E2|]. split; [exact I|].
  apply Forall_forall. intros x Hx. destruct (R x Hx) as [[] | Hr]. lia.
Qed.

(** ** A match across several runs *)

















(** ** Witnesses *)

(** Witness of X5: a paragraph with a run that holds only a zero-width
    space, and a hyperlink. *)
Lemma build_run_map_index_witness :
  valid_refs sample_paragraph = true
  /\ exists run_map,
       build_run_map (r_lst (kids sample_paragraph)) 0 [] []
         (sample_paragraph, initial)
       = ((sample_paragraph, initial), Ok (flattened sample_paragraph, run_map))
       /\ tiles 0 (Py.len (flattened sample_paragraph)) run_map.
Proof.
  split; [reflexivity|].
  destruct (build_run_map_index sample_paragraph initial eq_refl)
    as (run_map & H1 & H2 & _).
  now exists run_map.
Defined.

(** Witness of X6: a paragraph without the search text and a
    table-of-contents paragraph. *)
Lemma nothing_found_witness :
  let ps := [sample_paragraph; load (Some (py "TOC 1")) [plain "Hello"]] in
  let r := find_and_replace_text_preserve_formatting None (body_of ps)
             (py "World") (py "Bye") (ps, initial) in
  not_found (py "World") sample_paragraph = true
  /\ snd r = Ok 0 /\ fst (fst r) = ps.
Proof.
  intros ps r. split; [reflexivity|].
  apply (@nothing_found_nothing_changed None (body_of ps) (py "World") (py "Bye")
           (ps, initial)).
  repeat constructor.
  - exists sample_paragraph. split; [reflexivity|]. split; [reflexivity|].
    right. reflexivity.
  - eexists. split; [reflexivity|]. split; [reflexivity|]. left. reflexivity.
Defined.

(** Witness of X7. *)
Lemma find_and_replace_text_witness :
  let ps := [sample_paragraph] in
  xml_compatible (py "L") = true
  /\ forallb valid_refs ps = true
  /\ exists ps' g' n,
       find_and_replace_text (body_of ps) (py "l") (py "L") (ps, initial)
       = ((ps', g'), Ok n)
       /\ 0 <= n
       /\ Forall2 (kept (py "l")) ps ps'.
Proof.
  intro ps. split; [reflexivity|]. split; [reflexivity|].
  apply (@find_and_replace_text_keeps_structure (body_of ps) (py "l") (py "L")
           (ps, initial)); reflexivity.
Defined.

(** Witness of X8: a bold run with a tab. *)
Lemma clone_run_with_text_witness :
  let e := text_run (Some (mk_rPr true false None)) (py "a" ++ [TAB] ++ py "b") in
  let p := load None [Run e] in
  xml_compatible (py "X") = true
  /\ nth_error (elems p) 0 = Some e
  /\ exists c,
       clone_run_with_text 0%nat (py "X") (p, initial)
       = ((mk_p (style p) (kids p) (elems p ++ [c]), initial), Ok 1%nat)
       /\ rPr c = rPr e.
Proof.
  intros e p. split; [reflexivity|]. split; [reflexivity|].
  destruct (@clone_run_with_text_result p initial 0%nat e (py "X")
              eq_refl eq_refl)
    as (c & H1 & H2 & _).
  exists c. now split.
Defined.

(** Witness of X9: offsets before and beyond the text "word". *)
Lemma split_run_at_outside_witness :
  let e := text_run None (py "word") in
  let p := load None [Run e] in
  nth_error (elems p) 0 = Some e
  /\ split_run_at 0%nat (-3) (p, initial) = ((p, initial), Ok ([], py "word"))
  /\ split_run_at 0%nat 9 (p, initial) = ((p, initial), Ok (py "word", [])).
Proof.
  intros e p. split; [reflexivity|]. split.
  - apply (@split_run_at_outside p initial 0%nat e (-3) eq_refl).
    left. vm_compute. discriminate.
  - apply (@split_run_at_outside p initial 0%nat e 9 eq_refl).
    right. vm_compute. discriminate.
Defined.

(** Witness of X10: the bold run "world" split into "wor" and "ld". *)
Lemma split_run_at_inside_witness :
  let e := text_run (Some (mk_rPr true false None)) (py "world") in
  let p := load None [plain "Hello "; Run e; plain "!"] in
  nth_error (elems p) 1 = Some e
  /\ exists e1 e2,
       split_run_at 1%nat 3 (p, initial)
       = ((mk_p None [E_r 0%nat; E_r 1%nat; E_r 3%nat; E_r 2%nat]
                (update (elems p) 1 e1 ++ [e2]), initial),
          Ok (py "wor", py "ld"))
       /\ rPr e1 = rPr e /\ rPr e2 = rPr e
       /\ CT_R_text e1 = py "wor" /\ CT_R_text e2 = py "ld".
Proof.
  intros e p. split; [reflexivity|].
  destruct (@split_run_at_inside p initial 1%nat e 3 [E_r 0%nat] [E_r 2%nat])
    as (e1 & e2 & H1 & H2 & H3 & H4).
  - reflexivity.
  - cbn. intros [H | []]. discriminate H.
  - reflexivity.
  - vm_compute. split; reflexivity.
  - exists e1, e2. destruct (H4 eq_refl) as [H5 H6].
    repeat split; assumption.
Defined.

(** Witness of X11: five characters shared out over two runs of two. *)
Lemma replacement_loop_witness :
  let p := load None [Run (text_run (Some (mk_rPr true false None)) (py "ab"));
                      plain "cd"] in
  exists added,
    replacement_loop 2 0 [0%nat; 1%nat] (py "WXYZ!") [] (p, initial)
    = ((mk_p (style p) (kids p) (elems p ++ added), initial),
       Ok ([], seq 2 (List.length added)))
    /\ concat (map CT_R_text added) = py "WXYZ!".
Proof.
  intro p.
  destruct (@replacement_loop_conserves_text p initial [0%nat; 1%nat] (py "WXYZ!"))
    as (added & H1 & H2 & _).
  - reflexivity.
  - discriminate.
  - intros r [<- | [<- | []]]; eexists; split; reflexivity.
  - exists added. split; [exact H1 | exact H2].
Defined.

(** Witness of X12. *)
Lemma xml_replacement_loop_witness :
  let p := load None [Box w_hyperlink [plain "ab"; plain "cd"]] in
  exists added,
    xml_replacement_loop 2 0 [(0%nat, 1, 2, 0); (1%nat, 0, 1, 2)] (py "XYZ") []
      (p, initial)
    = ((mk_p (style p) (kids p) (elems p ++ added), initial),
       Ok ([], seq 2 (List.length added)))
    /\ concat (map CT_R_text added) = py "XYZ".
Proof.
  intro p.
  destruct (@xml_replacement_loop_conserves_text p initial
              [(0%nat, 1, 2, 0); (1%nat, 0, 1, 2)] (py "XYZ"))
    as (added & H1 & H2 & _).
  - reflexivity.
  - discriminate.
  - intros a [<- | [<- | []]]; eexists; split; reflexivity.
  - exists added. split; [exact H1 | exact H2].
Defined.

(** Witness of X13: no paragraph is "summary". *)
Lemma delete_block_under_header_not_found_witness :
  delete_block_under_header same same sample_paragraphs (py "summary") sample_body
  = (sample_body, Ok (None, 0)).
Proof.
  apply (@delete_block_under_header_not_found same same sample_paragraphs
           (py "summary") sample_body).
  repeat constructor;
    (eexists; eexists; split; [reflexivity | split; [reflexivity | discriminate]]).
Defined.

(** Witness of X14: a block of four paragraphs that runs to the end of
    the document; two of the four are removed. *)
Lemma delete_block_under_header_removes_witness :
  exists body',
    delete_block_under_header same same sample_paragraphs (py "intro") sample_body
    = (body', Ok (Some 0%nat, 2))
    /\ body_paragraphs body' = [0; 3; 4]%nat
    /\ body_tables body' = body_tables sample_body.
Proof.
  apply (@delete_block_under_header_removes same same sample_paragraphs
           (py "intro") sample_body [] 0%nat [1; 2; 3; 4]%nat []).
  - reflexivity.
  - repeat constructor; cbn; intuition discriminate.
  - constructor.
  - eexists; eexists; split; [reflexivity | split; reflexivity].
  - repeat constructor; (eexists; split; reflexivity).
  - now left.
Defined.



(** Witness of X17. *)
Lemma find_paragraph_by_text_witness :
  exists exact partial,
    find_paragraph_by_text sample_paragraphs (py "t") false sample_body
    = (sample_body, Ok exact)
    /\ find_paragraph_by_text sample_paragraphs (py "t") true sample_body
       = (sample_body, Ok partial)
    /\ incl exact partial
    /\ Forall (fun i => 0 <= i < Py.len (body_paragraphs sample_body)) partial.
Proof.
  apply (@find_paragraph_by_text_exact_in_partial sample_paragraphs (py "t")
           sample_body).
  repeat constructor; (eexists; eexists; split; reflexivity).
Defined.


(** Witness of X19: the variable unset. *)
Lemma nothing_printed_witness :
  Py.eqb (getenv None (py "0")) (py "1") = false
  /\ stdout (snd (fst (find_and_replace_text_preserve_formatting None
                        (body_of [greeting]) (py "world") (py "there")
                        ([greeting], initial))))
     = [].
Proof.
  split; [reflexivity|].
  apply (@nothing_printed_without_debug None (body_of [greeting]) (py "world")
           (py "there") ([greeting], initial)).
  reflexivity.
Defined.
